(** * Sales-Campaign-CRM: the lead pipeline of [sales_campaign_crm.py]

    A shallow embedding of the task queue, the sheet handler, the
    verification agent (AgentA), the outreach agent (AgentB) and the
    supervisor, with the properties of the pipeline stated over it.

    The Google Sheets worksheet, the SMTP server, the DNS resolver and the
    wall clock are outside the program.
    They are recorded in [external]: what each of them answers is an arbitrary
    function of the request (its number in the run, or the domain asked
    about), so a theorem that quantifies over the world quantifies over every
    behaviour of these services. *)

From Stdlib Require Import Ascii String ZArith Lia Btauto SpecFloat.
From Equations Require Import Equations.
Import Equations.Prop.Logic.
From stdpp Require Import gmap strings list sorting.

(** ** Python values held in a sheet record

    [get_all_records] hands back one dict per row whose values are text or,
    for cells that read as numbers, an [int] or, failing that, a [float]
    (binary64, with its zeros, infinities and NaN).  A number has no [lower]
    method and is falsy exactly when it is zero. *)

Inductive value : Type :=
| PStr (s : string)
| PInt (z : Z)
| PFloat (f : spec_float).

#[global] Instance spec_float_eq_dec : EqDecision spec_float.
Proof. solve_decision. Defined.

#[global] Instance value_eq_dec : EqDecision value.
Proof. solve_decision. Defined.

(** The task that travels through the queues: [{"index": idx, "data": record}]. *)
Record lead : Type := Lead {
  lead_index : nat;
  lead_data : gmap string value
}.

#[global] Instance lead_eq_dec : EqDecision lead.
Proof. solve_decision. Defined.

(** Truthiness of the result of [dict.get(key)] ([None] when the key is absent). *)
Definition truthy (v : option value) : bool :=
  match v with
  | None => false
  | Some (PStr s) => negb (String.eqb s "")
  | Some (PInt z) => negb (Z.eqb z 0)
  | Some (PFloat (S754_zero _)) => false
  | Some (PFloat _) => true
  end.

(** [type(v).__name__] *)
Definition type_name (v : value) : string :=
  match v with
  | PStr _ => "str"
  | PInt _ => "int"
  | PFloat _ => "float"
  end.

(** [str.lower] on the ASCII letters; other bytes are left as they are (no
    character outside ASCII lowers to a letter of the words compared below). *)
Definition ascii_lower (c : ascii) : ascii :=
  let n := nat_of_ascii c in
  if (Nat.leb 65 n && Nat.leb n 90)%bool then ascii_of_nat (n + 32) else c.

Fixpoint lower (s : string) : string :=
  match s with
  | EmptyString => EmptyString
  | String c r => String (ascii_lower c) (lower r)
  end.

(** [s.split(sep)[-1]]: what follows the last separator, all of [s] without one. *)
Fixpoint last_piece (sep : ascii) (s acc : string) : string :=
  match s with
  | EmptyString => acc
  | String c r =>
      if Ascii.eqb c sep then last_piece sep r EmptyString
      else last_piece sep r (acc +:+ String c EmptyString)
  end.

Definition split_last (sep : ascii) (s : string) : string :=
  last_piece sep s EmptyString.

(** [x in [..]] on strings. *)
Definition str_in (s : string) (l : list string) : bool :=
  existsb (String.eqb s) l.

(** [headers.index(col)]: position of the first equal element, [None] where
    Python raises [ValueError]. *)
Fixpoint list_index (col : string) (hs : list string) : option nat :=
  match hs with
  | [] => None
  | h :: rest =>
      if String.eqb h col then Some 0 else S <$> list_index col rest
  end.

(** ** Exceptions and the log *)

Inductive exn_class : Type :=
| KeyError | AttributeError | TypeError | APIError.

(** An exception with the text [str(e)] gives. *)
Record exn : Type := Exn {
  exn_kind : exn_class;
  exn_str : string
}.

(** [logger.error] calls, one constructor per call site. *)
Inductive log_entry : Type :=
| ColumnNotFound (col : string)
| ErrorProcessingLead (email : option value) (e : exn)
| ErrorInOutreach (email : option value) (e : exn)
| FailedToSendEmail (to : value)
| ErrorMonitoringLeads (e : exn).

(** ** The world *)

Record external : Type := External {
  (** the n-th request to the worksheet raises with this text *)
  sheet_api_error : nat -> option string;
  (** what [get_all_records] returns when it is the n-th request *)
  sheet_records : nat -> list (gmap string value);
  (** [dns.resolver.resolve(domain, "MX")] answers without raising *)
  mx_resolves : string -> bool;
  (** the n-th SMTP session goes through without an exception *)
  smtp_delivers : nat -> bool;
  (** [datetime.now().strftime(..)] at the n-th reading *)
  wall_clock : nat -> string
}.

(** [TaskQueue]: two [queue.Queue] objects, oldest element first. *)
Record TaskQueue : Type := MkTaskQueue {
  verification_queue : list lead;
  outreach_queue : list lead
}.

Record world : Type := World {
  ext : external;
  (** row 1 of the worksheet *)
  headers : list string;
  (** the cells below it, by (row, column), both counted from 1 *)
  grid : gmap (nat * nat) value;
  (** worksheet requests issued so far *)
  requests : nat;
  log : list log_entry;
  task_queue : TaskQueue;
  (** [AgentB.retry_queue], oldest entry first *)
  retry_queue : list (lead * nat);
  (** the record of every SMTP attempt, oldest first *)
  outbox : list (gmap string value);
  clock_reads : nat;
  (** [Supervisor.last_processed_row] *)
  last_processed_row : nat
}.

Definition set_grid (g : gmap (nat * nat) value) (w : world) : world :=
  World (ext w) (headers w) g (requests w) (log w) (task_queue w)
        (retry_queue w) (outbox w) (clock_reads w) (last_processed_row w).

Definition set_requests (n : nat) (w : world) : world :=
  World (ext w) (headers w) (grid w) n (log w) (task_queue w)
        (retry_queue w) (outbox w) (clock_reads w) (last_processed_row w).

Definition set_log (l : list log_entry) (w : world) : world :=
  World (ext w) (headers w) (grid w) (requests w) l (task_queue w)
        (retry_queue w) (outbox w) (clock_reads w) (last_processed_row w).

Definition set_task_queue (q : TaskQueue) (w : world) : world :=
  World (ext w) (headers w) (grid w) (requests w) (log w) q
        (retry_queue w) (outbox w) (clock_reads w) (last_processed_row w).

Definition set_retry_queue (q : list (lead * nat)) (w : world) : world :=
  World (ext w) (headers w) (grid w) (requests w) (log w) (task_queue w)
        q (outbox w) (clock_reads w) (last_processed_row w).

Definition set_outbox (o : list (gmap string value)) (w : world) : world :=
  World (ext w) (headers w) (grid w) (requests w) (log w) (task_queue w)
        (retry_queue w) o (clock_reads w) (last_processed_row w).

Definition set_clock_reads (n : nat) (w : world) : world :=
  World (ext w) (headers w) (grid w) (requests w) (log w) (task_queue w)
        (retry_queue w) (outbox w) n (last_processed_row w).

Definition set_last_processed_row (n : nat) (w : world) : world :=
  World (ext w) (headers w) (grid w) (requests w) (log w) (task_queue w)
        (retry_queue w) (outbox w) (clock_reads w) n.

(** ** Computations that change the world and may raise *)

Inductive result (A : Type) : Type :=
| Return (a : A)
| Raise (e : exn).
Arguments Return {A} a.
Arguments Raise {A} e.

Definition M (A : Type) : Type := world -> result A * world.

Definition ret {A} (a : A) : M A := fun w => (Return a, w).

Definition bind {A B} (c : M A) (k : A -> M B) : M B :=
  fun w =>
    match c w with
    | (Return a, w1) => k a w1
    | (Raise e, w1) => (Raise e, w1)
    end.

(** [try: body except Exception as e: handler(e)] *)
Definition try_except {A} (body : M A) (handler : exn -> M A) : M A :=
  fun w =>
    match body w with
    | (Return a, w1) => (Return a, w1)
    | (Raise e, w1) => handler e w1
    end.

Definition lift {A} (r : result A) : M A := fun w => (r, w).

Definition modify (f : world -> world) : M unit := fun w => (Return tt, f w).

Definition gets {A} (f : world -> A) : M A := fun w => (Return (f w), w).

Notation "'let*' x ':=' c 'in' k" := (bind c (fun x => k))
  (at level 10, x pattern, c at level 100, k at level 200).
Notation "c '>>' k" := (bind c (fun _ => k))
  (at level 100, k at level 200, right associativity).

Definition log_error (e : log_entry) : M unit :=
  modify (fun w => set_log (log w ++ [e]) w).

(** ** TaskQueue *)

Module Queue.

(** [queue.Queue] as the list of its elements, oldest first. *)

Definition put {A} (x : A) (q : list A) : list A := q ++ [x].

Definition empty {A} (q : list A) : bool :=
  match q with [] => true | _ => false end.

(** [get()] takes the oldest element; on an empty queue the caller is
    suspended, which is [None] here. *)
Definition get {A} (q : list A) : option (A * list A) :=
  match q with
  | [] => None
  | x :: rest => Some (x, rest)
  end.

End Queue.

(** How a call of a [get_*_task] method ends. *)
Inductive polled : Type :=
| Answered (task : option lead) (q : TaskQueue)
| Suspended.

Definition add_verification_task (l : lead) (q : TaskQueue) : TaskQueue :=
  MkTaskQueue (Queue.put l (verification_queue q)) (outreach_queue q).

Definition add_outreach_task (l : lead) (q : TaskQueue) : TaskQueue :=
  MkTaskQueue (verification_queue q) (Queue.put l (outreach_queue q)).

Definition get_verification_task (q : TaskQueue) : polled :=
  if negb (Queue.empty (verification_queue q)) then
    match Queue.get (verification_queue q) with
    | Some (l, rest) => Answered (Some l) (MkTaskQueue rest (outreach_queue q))
    | None => Suspended
    end
  else Answered None q.

Definition get_outreach_task (q : TaskQueue) : polled :=
  if negb (Queue.empty (outreach_queue q)) then
    match Queue.get (outreach_queue q) with
    | Some (l, rest) => Answered (Some l) (MkTaskQueue (verification_queue q) rest)
    | None => Suspended
    end
  else Answered None q.

(** The operations a producer or a consumer can issue, and a run of them
    that collects what each channel handed out. *)
Inductive queue_op : Type :=
| AddVerification (l : lead)
| AddOutreach (l : lead)
| GetVerification
| GetOutreach.

Record queue_run : Type := MkRun {
  run_queue : TaskQueue;
  (** what the polls of each channel returned, oldest first; [None] is an
      empty-handed poll *)
  got_verification : list (option lead);
  got_outreach : list (option lead);
  run_suspended : bool
}.

Definition run_op (r : queue_run) (op : queue_op) : queue_run :=
  match op with
  | AddVerification l =>
      MkRun (add_verification_task l (run_queue r))
            (got_verification r) (got_outreach r) (run_suspended r)
  | AddOutreach l =>
      MkRun (add_outreach_task l (run_queue r))
            (got_verification r) (got_outreach r) (run_suspended r)
  | GetVerification =>
      match get_verification_task (run_queue r) with
      | Answered t q =>
          MkRun q (got_verification r ++ [t]) (got_outreach r) (run_suspended r)
      | Suspended =>
          MkRun (run_queue r) (got_verification r) (got_outreach r) true
      end
  | GetOutreach =>
      match get_outreach_task (run_queue r) with
      | Answered t q =>
          MkRun q (got_verification r) (got_outreach r ++ [t]) (run_suspended r)
      | Suspended =>
          MkRun (run_queue r) (got_verification r) (got_outreach r) true
      end
  end.

Definition run_ops (ops : list queue_op) : queue_run :=
  fold_left run_op ops (MkRun (MkTaskQueue [] []) [] [] false).

(** The tasks put on each channel by a sequence of operations, in order. *)
Definition added_verification (ops : list queue_op) : list lead :=
  omap (fun op => match op with AddVerification l => Some l | _ => None end) ops.

Definition added_outreach (ops : list queue_op) : list lead :=
  omap (fun op => match op with AddOutreach l => Some l | _ => None end) ops.

(** The tasks among a list of poll results. *)
Definition tasks_of (polls : list (option lead)) : list lead :=
  omap id polls.

(** ** EmailValidator *)

Module EmailValidator.

Definition disposable_domains : list string :=
  ["example.com"; "mailinator.com"; "tempmail.net"; "company.com";
   "test.com"; "business.com"].

(** The character classes of the pattern
    [^[a-zA-Z0-9_.+-]+@[a-zA-Z0-9-]+\.[a-zA-Z0-9-.]+$]. *)
Definition is_alnum (c : ascii) : bool :=
  let n := nat_of_ascii c in
  ((Nat.leb 48 n && Nat.leb n 57) || (Nat.leb 65 n && Nat.leb n 90)
   || (Nat.leb 97 n && Nat.leb n 122))%bool.

Definition local_char (c : ascii) : bool :=
  (is_alnum c || Ascii.eqb c "_" || Ascii.eqb c "." || Ascii.eqb c "+"
   || Ascii.eqb c "-")%bool.

Definition domain_char (c : ascii) : bool :=
  (is_alnum c || Ascii.eqb c "-")%bool.

Definition tail_char (c : ascii) : bool :=
  (is_alnum c || Ascii.eqb c "-" || Ascii.eqb c ".")%bool.

(** The longest prefix of characters of a class, and what follows it. *)
Fixpoint span (p : ascii -> bool) (s : string) : string * string :=
  match s with
  | EmptyString => (EmptyString, EmptyString)
  | String c r =>
      if p c then let '(taken, rest) := span p r in (String c taken, rest)
      else (EmptyString, s)
  end.

Definition nonempty_string (s : string) : bool :=
  match s with EmptyString => false | _ => true end.

(** [re.match] of the pattern.  No class holds the character that follows
    it, so each [+] takes the longest run there is; [$] is the end of the
    text or the place before a last line feed. *)
Definition _check_syntax (email : string) : bool :=
  let '(local, after_local) := span local_char email in
  match after_local with
  | String "@" after_at =>
      let '(domain, after_domain) := span domain_char after_at in
      match after_domain with
      | String "." after_dot =>
          let '(tail, rest) := span tail_char after_dot in
          (nonempty_string local && nonempty_string domain
           && nonempty_string tail
           && (String.eqb rest "" || String.eqb rest (String "010" "")))%bool
      | _ => false
      end
  | _ => false
  end.

Definition _is_disposable (email : string) : bool :=
  let domain := lower (split_last "@" email) in
  str_in domain disposable_domains.

(** The lookup raises inside its own [try], which turns that into [False]. *)
Definition _check_mx_records (x : external) (email : string) : bool :=
  let domain := split_last "@" email in
  mx_resolves x domain.

(** [re.match] raises [TypeError] on anything that is not text. *)
Definition validate (x : external) (email : value) : result bool :=
  match email with
  | PStr s =>
      if negb (_check_syntax s) then Return false
      else if _is_disposable s then Return false
      else Return (_check_mx_records x s)
  | PInt _ | PFloat _ =>
      Raise (Exn TypeError ("expected string or bytes-like object, got '"
                            +:+ type_name email +:+ "'"))
  end.

End EmailValidator.

(** ** CRMHandler *)

(** [gspread.Cell(row, col, value)] *)
Record cell : Type := Cell {
  cell_row : nat;
  cell_col : nat;
  cell_value : value
}.

Module CRMHandler.

(** Every call on [self.sheet] is one request, which the service may refuse. *)
Definition sheet_request : M nat :=
  fun w =>
    let n := requests w in
    match sheet_api_error (ext w) n with
    | Some msg => (Raise (Exn APIError msg), set_requests (S n) w)
    | None => (Return n, set_requests (S n) w)
    end.

(** [self.sheet.row_values(1)] *)
Definition row_values_1 : M (list string) :=
  let* _ := sheet_request in gets headers.

(** [self.sheet.get_all_records()] *)
Definition get_all_records : M (list (gmap string value)) :=
  let* n := sheet_request in gets (fun w => sheet_records (ext w) n).

Definition write_cell (g : gmap (nat * nat) value) (c : cell) : gmap (nat * nat) value :=
  <[(cell_row c, cell_col c) := cell_value c]> g.

(** [self.sheet.update_cells(cells)] *)
Definition update_cells (cells : list cell) : M unit :=
  let* _ := sheet_request in
  modify (fun w => set_grid (fold_left write_cell cells (grid w)) w).

(** The [for col, val in updates.items()] loop of [update_lead]: a column
    found in the header row gives a cell, one that is not found is logged. *)
Fixpoint collect_cells (hs : list string) (row_index : nat)
    (updates : list (string * value)) (cells : list cell) : M (list cell) :=
  match updates with
  | [] => ret cells
  | (col, val) :: rest =>
      match list_index col hs with
      | Some i =>
          collect_cells hs row_index rest
            (cells ++ [Cell (row_index + 2) (i + 1) val])
      | None =>
          log_error (ColumnNotFound col) >>
          collect_cells hs row_index rest cells
      end
  end.

Definition update_lead (row_index : nat) (updates : list (string * value)) : M unit :=
  let* hs := row_values_1 in
  let* cells := collect_cells hs row_index updates [] in
  match cells with
  | [] => ret tt
  | _ => update_cells cells
  end.

Definition validate_email (email : value) : M bool :=
  fun w => (EmailValidator.validate (ext w) email, w).

(** [self.get_leads()] *)
Definition get_leads : M (list (gmap string value)) := get_all_records.

(** [datetime.now().strftime("%Y-%m-%d %H:%M:%S")] *)
Definition now_strftime : M string :=
  fun w => (Return (wall_clock (ext w) (clock_reads w)),
            set_clock_reads (S (clock_reads w)) w).

(** [d[key]]: [KeyError] on a key that is absent. *)
Definition subscript (d : gmap string value) (key : string) : result value :=
  match d !! key with
  | Some v => Return v
  | None => Raise (Exn KeyError ("'" +:+ key +:+ "'"))
  end.

(** [d.get(key, "").lower()]: [AttributeError] on a number. *)
Definition get_lower (d : gmap string value) (key : string) : result string :=
  match default (PStr "") (d !! key) with
  | PStr s => Return (lower s)
  | (PInt _ | PFloat _) as v =>
      Raise (Exn AttributeError
               ("'" +:+ type_name v +:+ "' object has no attribute 'lower'"))
  end.

End CRMHandler.

(** ** AgentA: verification *)

Module AgentA.
Import CRMHandler.

Definition check_industry (lead_data : gmap string value) : result bool :=
  match get_lower lead_data "Industry" with
  | Return s => Return (negb (str_in s ["competitor"; "direct competitor"]))
  | Raise e => Raise e
  end.

Definition check_company_size (lead_data : gmap string value) : result bool :=
  match get_lower lead_data "Company" with
  | Return s => Return (negb (String.eqb s "test company"))
  | Raise e => Raise e
  end.

Definition check_contact_details (lead_data : gmap string value) : result bool :=
  let required_fields := ["Email"; "Company"; "Contact Number"] in
  Return (forallb (fun field => truthy (lead_data !! field)) required_fields).

(** The list of the three checks is built first, in this order, then [all]. *)
Definition perform_additional_checks (lead_data : gmap string value) : result bool :=
  match check_industry lead_data with
  | Raise e => Raise e
  | Return c1 =>
      match check_company_size lead_data with
      | Raise e => Raise e
      | Return c2 =>
          match check_contact_details lead_data with
          | Raise e => Raise e
          | Return c3 => Return (forallb id [c1; c2; c3])
          end
      end
  end.

Definition verified_updates (verification_status now : string) : list (string * value) :=
  [("Email Verified (Y/N)", PStr verification_status);
   ("Processing Status", PStr "Verified");
   ("Verification Date", PStr now)].

Definition error_updates (e : exn) : list (string * value) :=
  [("Processing Status", PStr "Error");
   ("Notes", PStr ("Verification failed: " +:+ exn_str e))].

(** The body of the [try] of [process_lead]. *)
Definition process_lead_try (l : lead) : M unit :=
  update_lead (lead_index l) [("Processing Status", PStr "Verifying")] >>
  let* email := lift (subscript (lead_data l) "Email") in
  let* is_valid := validate_email email in
  let* additional_checks_passed := lift (perform_additional_checks (lead_data l)) in
  let verification_status :=
    if (is_valid && additional_checks_passed)%bool then "Y" else "N" in
  let* now := now_strftime in
  update_lead (lead_index l) (verified_updates verification_status now) >>
  if String.eqb verification_status "Y"
  then modify (fun w => set_task_queue (add_outreach_task l (task_queue w)) w)
  else ret tt.

(** The [except Exception as e] branch. *)
Definition process_lead_except (l : lead) (e : exn) : M unit :=
  log_error (ErrorProcessingLead (lead_data l !! "Email") e) >>
  update_lead (lead_index l) (error_updates e).

Definition process_lead (l : lead) : M unit :=
  try_except (process_lead_try l) (process_lead_except l).

End AgentA.

(** ** AgentB: outreach and retries *)

Module AgentB.
Import CRMHandler.

(** [msg["To"] = lead["Email"]] stands before the [try]; the SMTP session is
    inside it, so a delivery that fails is logged and answered with [False]. *)
Definition send_email (lead_data : gmap string value) : M bool :=
  let* to := lift (subscript lead_data "Email") in
  fun w =>
    let n := length (outbox w) in
    let w1 := set_outbox (outbox w ++ [lead_data]) w in
    if smtp_delivers (ext w) n then (Return true, w1)
    else (Return false, set_log (log w1 ++ [FailedToSendEmail to]) w1).

Definition completed_updates (now : string) : list (string * value) :=
  [("Processing Status", PStr "Completed");
   ("Response Status", PStr "Pending Response");
   ("Outreach Date", PStr now)].

Definition error_updates (e : exn) : list (string * value) :=
  [("Processing Status", PStr "Error");
   ("Notes", PStr ("Outreach failed: " +:+ exn_str e))].

Definition retry_put (entry : lead * nat) : M unit :=
  modify (fun w => set_retry_queue (Queue.put entry (retry_queue w)) w).

Definition process_lead_try (l : lead) : M unit :=
  update_lead (lead_index l) [("Processing Status", PStr "Outreach")] >>
  let* success := send_email (lead_data l) in
  if negb success then retry_put (l, 1)
  else
    let* now := now_strftime in
    update_lead (lead_index l) (completed_updates now).

Definition process_lead_except (l : lead) (e : exn) : M unit :=
  log_error (ErrorInOutreach (lead_data l !! "Email") e) >>
  update_lead (lead_index l) (error_updates e).

Definition process_lead (l : lead) : M unit :=
  try_except (process_lead_try l) (process_lead_except l).

(** What the body of the [while] does with the entry it took off the queue. *)
Definition retry_entry (entry : lead * nat) : M unit :=
  let '(l, attempts) := entry in
  if Nat.ltb attempts 3 then
    let* success := send_email (lead_data l) in
    if negb success then retry_put (l, attempts + 1) else ret tt
  else ret tt.

(** The sends an entry can still cause, plus one for taking it off. *)
Definition entry_budget (entry : lead * nat) : nat := 1 + (3 - snd entry).

Definition retry_budget (q : list (lead * nat)) : nat :=
  sum_list_with entry_budget q.

(** [while not self.retry_queue.empty(): lead, attempts = self.retry_queue.get(); ..]
    The loop ends because every pass lowers the budget of the queue. *)
Equations? process_retry_queue (w : world) : result unit * world
  by wf (retry_budget (retry_queue w)) lt :=
process_retry_queue w with inspect (retry_queue w) := {
  | @exist [] _ := (Return tt, w)
  | @exist (entry :: rest) Hq
      with inspect (retry_entry entry (set_retry_queue rest w)) := {
      | @exist (Return _, w1) Hs := process_retry_queue w1
      | @exist (Raise e, w1) Hs := (Raise e, w1) } }.
Proof.
  rewrite Hq. revert Hs. destruct entry as [l attempts].
  unfold retry_entry, bind, send_email, lift, bind, ret, retry_put, modify.
  destruct (Nat.ltb_spec attempts 3) as [Hlt|Hge].
  - destruct (subscript _ _); [|discriminate]. simpl.
    destruct (smtp_delivers _ _); simpl; intros [= <- <-]; simpl;
      unfold Queue.put, retry_budget; rewrite ?sum_list_with_app; simpl;
      unfold entry_budget; simpl; lia.
  - intros [= <- <-]. unfold retry_budget. simpl. lia.
Qed.

End AgentB.

(** ** Supervisor *)

Record report : Type := Report {
  total_leads : nat;
  verified : nat;
  responses : gmap string nat
}.

Module Supervisor.
Import CRMHandler.

(** [enumerate(all_records)], counting from [idx]. *)
Fixpoint enumerate_from {A} (idx : nat) (l : list A) : list (nat * A) :=
  match l with
  | [] => []
  | x :: rest => (idx, x) :: enumerate_from (S idx) rest
  end.

(** The comprehension of [get_new_leads]. *)
Definition is_new (last_row : nat) (idx : nat) (record : gmap string value) : bool :=
  (Nat.ltb last_row (idx + 2) && negb (truthy (record !! "Processing Status")))%bool.

Definition new_leads_of (last_row : nat) (all_records : list (gmap string value)) : list lead :=
  omap (fun '(idx, record) =>
          if is_new last_row idx record then Some (Lead idx record) else None)
       (enumerate_from 0 all_records).

Definition get_new_leads : M (list lead) :=
  let* all_records := get_all_records in
  let* last_row := gets last_processed_row in
  ret (new_leads_of last_row all_records).

(** The [for lead in new_leads] loop of [monitor_new_leads]. *)
Fixpoint assign_leads (new_leads : list lead) : M unit :=
  match new_leads with
  | [] => ret tt
  | l :: rest =>
      modify (fun w => set_task_queue (add_verification_task l (task_queue w)) w) >>
      modify (set_last_processed_row (lead_index l + 2)) >>
      assign_leads rest
  end.

Definition monitor_new_leads : M unit :=
  try_except
    (let* new_leads := get_new_leads in assign_leads new_leads)
    (fun e => log_error (ErrorMonitoringLeads e)).

(** [sum(1 for l in leads if l.get("Email Verified (Y/N)") == "Y")] *)
Definition count_if {A} (p : A -> bool) (l : list A) : nat :=
  List.length (List.filter p l).

Definition is_verified (l : gmap string value) : bool :=
  bool_decide (l !! "Email Verified (Y/N)" = Some (PStr "Y")).

(** One pass of [for lead in leads] over the response counters. *)
Definition tally (rs : gmap string nat) (l : gmap string value) : gmap string nat :=
  match default (PStr "No Response") (l !! "Response Status") with
  | PStr status =>
      match rs !! status with
      | Some n => <[status := n + 1]> rs
      | None => rs
      end
  | PInt _ | PFloat _ => rs
  end.

Definition initial_responses : gmap string nat :=
  <["Interested" := 0]> (<["Not Interested" := 0]> (<["No Response" := 0]> ∅)).

Definition report_of (leads : list (gmap string value)) : report :=
  Report (List.length leads)
         (count_if is_verified leads)
         (fold_left tally leads initial_responses).

Definition generate_report : M report :=
  let* leads := get_leads in ret (report_of leads).

(** The response status a record is tallied under. *)
Definition response_status (l : gmap string value) : value :=
  default (PStr "No Response") (l !! "Response Status").

End Supervisor.

(** ** Vocabulary of the statements *)

(** The cell at the row of a lead and a given column of the header row. *)
Definition cell_at (w : world) (row_index col_index : nat) : option value :=
  grid w !! (row_index + 2, col_index + 1).

(** The update names that the header row has, and the names it lacks. *)
Definition known_updates (hs : list string) (updates : list (string * value))
    : list (string * value) :=
  List.filter (fun u => bool_decide (is_Some (list_index u.1 hs))) updates.

Definition unknown_columns (hs : list string) (updates : list (string * value))
    : list string :=
  omap (fun u => match list_index u.1 hs with
                 | Some _ => None
                 | None => Some u.1
                 end) updates.

(** The cells [update_lead] hands to [update_cells]. *)
Definition resolved_cells (hs : list string) (row_index : nat)
    (updates : list (string * value)) : list cell :=
  omap (fun u => (fun i => Cell (row_index + 2) (i + 1) u.2) <$> list_index u.1 hs)
       updates.

(** Everything of the world that [update_lead] leaves alone. *)
Definition same_agents (w w' : world) : Prop :=
  ext w' = ext w /\ headers w' = headers w /\ task_queue w' = task_queue w /\
  retry_queue w' = retry_queue w /\ outbox w' = outbox w /\
  clock_reads w' = clock_reads w /\ last_processed_row w' = last_processed_row w.

(** The status [AgentA.process_lead] computes between its two updates:
    [validate_email], then [perform_additional_checks], then ["Y"] or ["N"]. *)
Definition computed_status (x : external) (lead_data : gmap string value)
    : result string :=
  match CRMHandler.subscript lead_data "Email" with
  | Raise e => Raise e
  | Return email =>
      match EmailValidator.validate x email with
      | Raise e => Raise e
      | Return is_valid =>
          match AgentA.perform_additional_checks lead_data with
          | Raise e => Raise e
          | Return passed =>
              Return (if (is_valid && passed)%bool then "Y" else "N")
          end
      end
  end.

(** The text of a field as [d.get(key, "")] gives it. *)
Definition field_text (d : gmap string value) (key : string) : string :=
  match d !! key with
  | Some (PStr s) => s
  | _ => ""
  end.

Definition address_valid (x : external) (d : gmap string value) : Prop :=
  exists email, d !! "Email" = Some email /\
                EmailValidator.validate x email = Return true.

(** A field that holds something other than the empty text. *)
Definition nonempty (v : option value) : Prop :=
  exists x, v = Some x /\ x <> PStr "".

(** A field that holds a truthy value: text that is not empty, or a number
    that is not zero. *)
Definition is_truthy (v : option value) : Prop := truthy v = true.

(** The conditions of a positive verification, with the reading of "the
    field is filled in" left open. *)
Definition passes_verification (filled : option value -> Prop)
    (x : external) (d : gmap string value) : Prop :=
  address_valid x d /\
  (lower (field_text d "Industry") ∉ ["competitor"; "direct competitor"]) /\
  lower (field_text d "Company") <> "test company" /\
  filled (d !! "Email") /\ filled (d !! "Company") /\
  filled (d !! "Contact Number").

(** Every field of an update whose column the sheet has holds its value in
    the row of the lead. *)
Definition written (updates : list (string * value)) (l : lead)
    (hs : list string) (w' : world) : Prop :=
  forall col val i,
    (col, val) ∈ updates -> list_index col hs = Some i ->
    cell_at w' (lead_index l) i = Some val.

(** The write-back of a verification that went from [w] to [w']. *)
Definition verification_written (filled : option value -> Prop)
    (l : lead) (w w' : world) : Prop :=
  exists status now,
    ((status = "Y" /\ passes_verification filled (ext w) (lead_data l)) \/
     (status = "N" /\ ~ passes_verification filled (ext w) (lead_data l))) /\
    written (AgentA.verified_updates status now) l (headers w) w'.

(** [AgentA.process_lead] put the lead on the outreach channel. *)
Definition enqueued_for_outreach (l : lead) (w : world) : Prop :=
  outreach_queue (task_queue (AgentA.process_lead l w).2)
  = outreach_queue (task_queue w) ++ [l].

Definition outreach_untouched (l : lead) (w : world) : Prop :=
  outreach_queue (task_queue (AgentA.process_lead l w).2)
  = outreach_queue (task_queue w).

(** An exception in the [try] of [AgentA.process_lead] ends in a normal
    return with the error written to the sheet and nothing put on the
    outreach channel. *)
Definition failure_recorded (l : lead) (w : world) : Prop :=
  forall e w1,
    AgentA.process_lead_try l w = (Raise e, w1) ->
    (AgentA.process_lead l w).1 = Return tt /\
    written (AgentA.error_updates e) l (headers w) (AgentA.process_lead l w).2 /\
    outreach_untouched l w.

(** ** Sample worlds *)

Definition sample_headers : list string :=
  ["Email"; "Company"; "Industry"; "Contact Number"; "Processing Status";
   "Email Verified (Y/N)"; "Verification Date"; "Response Status";
   "Outreach Date"; "Notes"].

(** Services that refuse the requests [refused] names, resolve every domain
    and deliver the messages [delivers] lets through. *)
Definition services (refused : nat -> option string) (delivers : nat -> bool)
    : external :=
  External refused (fun _ => []) (fun _ => true) delivers
           (fun _ => "2025-01-01 09:00:00").

Definition fresh_world (x : external) : world :=
  World x sample_headers ∅ 0 [] (MkTaskQueue [] []) [] [] 0 1.

Definition quiet_world : world :=
  fresh_world (services (fun _ => None) (fun _ => true)).

Definition acme_lead : lead :=
  Lead 0 (<["Email" := PStr "ann@acme.org"]>
          (<["Company" := PStr "Acme"]>
           (<["Industry" := PStr "Retail"]>
            (<["Contact Number" := PInt 5551234]> ∅)))).

(** The same lead with the number cell reading 0. *)
Definition zero_number_lead : lead :=
  Lead 0 (<["Contact Number" := PInt 0]> (lead_data acme_lead)).

(** A worksheet that refuses the request with the given number, and one that
    refuses every request. *)
Definition refusing_world (k : nat) : world :=
  fresh_world (services (fun n => if Nat.eqb n k then Some "quota exceeded" else None)
                        (fun _ => true)).

Definition unreachable_world : world :=
  fresh_world (services (fun _ => Some "service unavailable") (fun _ => true)).

(** The sends the entries of a retry queue can still cause. *)
Definition sends_left (q : list (lead * nat)) : nat :=
  sum_list_with (fun entry => 3 - entry.2) q.

(** A worksheet and a mail server where the first [k] sessions fail and the
    later ones deliver. *)
Definition failing_first (k : nat) : world :=
  fresh_world (services (fun _ => None) (fun n => Nat.leb k n)).

(** A mail server on which every session fails. *)
Definition never_delivering : world :=
  fresh_world (services (fun _ => None) (fun _ => false)).

(** The response categories of the report, and the records tallied under one. *)
Definition categories : list string :=
  ["Interested"; "Not Interested"; "No Response"].

Definition tallied_under (s : string) (leads : list (gmap string value)) : nat :=
  length (filter (fun l => Supervisor.response_status l = PStr s) leads).

(** The sheet row of a lead: its index, past the header row. *)
Definition lead_row (l : lead) : nat := lead_index l + 2.

(** What happens around the supervisor: a call of [monitor_new_leads], or
    anything the other threads and the outside do to the world, which cannot
    reach the supervisor's own [last_processed_row]. *)
Inductive supervisor_event : Type :=
| Discover
| Elsewhere (f : world -> world).

(** One call of [monitor_new_leads] as seen from outside: the mark before,
    the leads it put on the verification channel, the mark after. *)
Record discovery : Type := Discovery {
  mark_before : nat;
  discovered : list lead;
  mark_after : nat
}.

Definition enqueued_since (w w' : world) : list lead :=
  drop (length (verification_queue (task_queue w)))
       (verification_queue (task_queue w')).

Fixpoint supervise (events : list supervisor_event) (w : world)
    : list discovery * world :=
  match events with
  | [] => ([], w)
  | Discover :: rest =>
      let w1 := (Supervisor.monitor_new_leads w).2 in
      let '(ds, w2) := supervise rest w1 in
      (Discovery (last_processed_row w) (enqueued_since w w1)
                 (last_processed_row w1) :: ds, w2)
  | Elsewhere f :: rest =>
      supervise rest (set_last_processed_row (last_processed_row w) (f w))
  end.

(** The marks of a run in the order they were read, and every lead it
    discovered in the order they were put on the channel. *)
Definition marks (ds : list discovery) : list nat :=
  concat ((fun d => [mark_before d; mark_after d]) <$> ds).

Definition all_discovered (ds : list discovery) : list lead :=
  concat (discovered <$> ds).

(** A sheet of four rows, the second of them already processed. *)
Definition sample_records : list (gmap string value) :=
  [lead_data acme_lead;
   <["Processing Status" := PStr "Completed"]> (lead_data acme_lead);
   lead_data zero_number_lead;
   lead_data acme_lead].

Definition sample_sheet_world : world :=
  fresh_world (External (fun _ => None)
                 (fun n => take (2 + n) sample_records)
                 (fun _ => true) (fun _ => true)
                 (fun _ => "2025-01-01 09:00:00")).

(** The invariant of a run that starts from mark [m]. *)
Fixpoint run_ok (m : nat) (ds : list discovery) : Prop :=
  match ds with
  | [] => True
  | d :: rest =>
      m <= mark_before d /\ mark_before d <= mark_after d /\
      StronglySorted lt (lead_index <$> discovered d) /\
      Forall (fun l => mark_before d < lead_row l <= mark_after d) (discovered d) /\
      run_ok (mark_after d) rest
  end.


(** The lead of the scenario "Test Company". *)
Definition test_company_lead : lead :=
  Lead 1 (<["Email" := PStr "a@test.org"]>
          (<["Company" := PStr "Test Company"]>
           (<["Industry" := PStr "Retail"]>
            (<["Contact Number" := PStr "555-1"]> ∅)))).

(** ** More vocabulary: text, cells, records *)

(** Every character of a text is in a class. *)
Fixpoint all_chars (p : ascii -> bool) (s : string) : bool :=
  match s with
  | EmptyString => true
  | String c r => (p c && all_chars p r)%bool
  end.

(** A text has the character in it. *)
Fixpoint has_char (c : ascii) (s : string) : bool :=
  match s with
  | EmptyString => false
  | String c' r => (Ascii.eqb c' c || has_char c r)%bool
  end.

(** A cell of an update points at the position. *)
Definition writes_at (p : nat * nat) (c : cell) : Prop :=
  (cell_row c, cell_col c) = p.

#[global] Instance writes_at_dec (p : nat * nat) (c : cell) :
  Decision (writes_at p c).
Proof. unfold writes_at. apply _. Defined.

(** The cell on which [perform_additional_checks] raises: the Industry cell
    when it reads as a number ([int] or [float]), else the Company cell when
    that one does. *)
Definition first_number (d : gmap string value) : option value :=
  match d !! "Industry" with
  | Some (PStr _) | None =>
      match d !! "Company" with
      | Some (PStr _) | None => None
      | Some v => Some v
      end
  | Some v => Some v
  end.

(** A field that holds the number zero, as an [int] or as a [float]. *)
Definition reads_zero (v : option value) : Prop :=
  v = Some (PInt 0) \/ exists sign, v = Some (PFloat (S754_zero sign)).

(** A worksheet that accepts every request. *)
Definition accepting (w : world) : Prop :=
  forall n, sheet_api_error (ext w) n = None.

(** Everything of the world but the verification channel and the mark, which
    are what the supervisor writes. *)
Definition same_but_discovery (w w' : world) : Prop :=
  ext w' = ext w /\ headers w' = headers w /\ grid w' = grid w /\
  requests w' = requests w /\ log w' = log w /\
  outreach_queue (task_queue w') = outreach_queue (task_queue w) /\
  retry_queue w' = retry_queue w /\ outbox w' = outbox w /\
  clock_reads w' = clock_reads w.

(** The record of a lead is new for a mark. *)
Definition new_for (last_row : nat) (records : list (gmap string value))
    (l : lead) : Prop :=
  records !! lead_index l = Some (lead_data l) /\
  last_row < lead_index l + 2 /\
  truthy (lead_data l !! "Processing Status") = false.

(** A worksheet that answers every request with the same four rows. *)
Definition steady_sheet_world : world :=
  fresh_world (External (fun _ => None) (fun _ => sample_records)
                 (fun _ => true) (fun _ => true)
                 (fun _ => "2025-01-01 09:00:00")).

(** Two worlds that differ at most in the row of one lead, the log, the
    outreach channel, the counts of requests and of clock readings. *)
Definition same_but_row (row_index : nat) (w w' : world) : Prop :=
  ext w' = ext w /\ headers w' = headers w /\
  verification_queue (task_queue w') = verification_queue (task_queue w) /\
  retry_queue w' = retry_queue w /\ outbox w' = outbox w /\
  last_processed_row w' = last_processed_row w /\
  forall r c, r <> row_index + 2 -> grid w' !! (r, c) = grid w !! (r, c).

(** The lead of [acme_lead] without its address, and with a company cell
    that reads as a number. *)
Definition no_email_lead : lead :=
  Lead 0 (delete "Email" (lead_data acme_lead)).

Definition numeric_company_lead : lead :=
  Lead 0 (<["Company" := PInt 42]>
          (<["Industry" := PStr "Competitor"]> (lead_data acme_lead))).


(** ** The bodies of the worker loops

    One pass of [while self.running] of each agent, without the sleep.
    [None] is a pass that never ends because [Queue.get] suspends it. *)

Module Loops.

(** [AgentA.start_processing] *)
Definition agent_a_pass (w : world) : option (result unit * world) :=
  match get_verification_task (task_queue w) with
  | Suspended => None
  | Answered None q => Some (Return tt, set_task_queue q w)
  | Answered (Some l) q => Some (AgentA.process_lead l (set_task_queue q w))
  end.

(** [AgentB.start_processing] *)
Definition agent_b_pass (w : world) : option (result unit * world) :=
  match AgentB.process_retry_queue w with
  | (Raise e, w1) => Some (Raise e, w1)
  | (Return _, w1) =>
      match get_outreach_task (task_queue w1) with
      | Suspended => None
      | Answered None q => Some (Return tt, set_task_queue q w1)
      | Answered (Some l) q => Some (AgentB.process_lead l (set_task_queue q w1))
      end
  end.


(** Passes of [AgentB] one after the other, as long as they return. *)
Fixpoint agent_b_passes (n : nat) (w : world) : option (result unit * world) :=
  match n with
  | 0 => Some (Return tt, w)
  | S k =>
      match agent_b_pass w with
      | Some (Return _, w1) => agent_b_passes k w1
      | other => other
      end
  end.

End Loops.

(** The retry queue between two passes of [AgentB]: empty, or one lead with
    an address and one attempt behind it. *)
Definition waiting_once (w : world) : Prop :=
  retry_queue w = [] \/
  exists l, retry_queue w = [(l, 1)] /\ is_Some (lead_data l !! "Email").

(** A world with three leads waiting for outreach and a mail server that
    fails four sessions out of five. *)
Definition busy_outreach_world : world :=
  set_task_queue (MkTaskQueue [] [acme_lead; zero_number_lead; acme_lead])
    (fresh_world (services (fun _ => None)
                    (fun n => Nat.eqb (n mod 5) 4))).

(** What [AgentB] leaves alone: the services, the header row, both channels,
    the supervisor's mark, and every cell outside the row of a lead. *)
Definition outside_row_kept (row_index : nat) (w w' : world) : Prop :=
  ext w' = ext w /\ headers w' = headers w /\ task_queue w' = task_queue w /\
  last_processed_row w' = last_processed_row w /\
  forall r c, r <> row_index + 2 -> grid w' !! (r, c) = grid w !! (r, c).

(** The sends still owed to the leads of a world, those made included: the
    outbox, what the retry queue has left, three for each lead waiting. *)
Definition send_budget (w : world) : nat :=
  length (outbox w) + sends_left (retry_queue w)
  + 3 * length (outreach_queue (task_queue w)).



(** ** Gmail

    The Gmail service is outside the program.  The model takes what the
    service answers as given and records the requests the code makes: every
    [execute()] is one request, which the service may refuse. *)

Record gmail_api : Type := GmailApi {
  (** the text of the error that ends the n-th request, when it fails *)
  gmail_error : nat -> option string;
  (** the ids [messages().list] answers for a query, asked as the n-th request *)
  gmail_list : nat -> string -> list string;
  (** the message [messages().get] answers for an id *)
  gmail_get : string -> string
}.

Record mailbox : Type := Mailbox {
  api : gmail_api;
  (** requests executed so far *)
  api_requests : nat;
  (** ids whose UNREAD label a [modify] request has removed, in order *)
  marked_read : list string;
  (** the texts handed to [logger.error] *)
  gmail_log : list string
}.

(** [str.strip()].  A text is held as the bytes of its UTF-8 encoding, so a
    white-space character of Python is one, two or three bytes long:
    - one byte: tab to carriage return (9 to 13), the separators 28 to 31
      and the space;
    - two bytes: U+0085 and U+00A0 (C2 85, C2 A0);
    - three bytes: U+1680 (E1 9A 80), U+2000 to U+200A (E2 80 80 to
      E2 80 8A), U+2028, U+2029 and U+202F (E2 80 A8, E2 80 A9, E2 80 AF),
      U+205F (E2 81 9F) and U+3000 (E3 80 80). *)
Definition py_whitespace (c : ascii) : bool :=
  let n := nat_of_ascii c in
  ((Nat.leb 9 n && Nat.leb n 13) || (Nat.leb 28 n && Nat.leb n 32))%bool.

Definition py_whitespace2 (a b : ascii) : bool :=
  (Nat.eqb (nat_of_ascii a) 194
   && (Nat.eqb (nat_of_ascii b) 133 || Nat.eqb (nat_of_ascii b) 160))%bool.

Definition py_whitespace3 (a b c : ascii) : bool :=
  let x := nat_of_ascii a in
  let y := nat_of_ascii b in
  let z := nat_of_ascii c in
  ((Nat.eqb x 225 && Nat.eqb y 154 && Nat.eqb z 128)
   || (Nat.eqb x 226 && Nat.eqb y 128
       && ((Nat.leb 128 z && Nat.leb z 138)
           || Nat.eqb z 168 || Nat.eqb z 169 || Nat.eqb z 175))
   || (Nat.eqb x 226 && Nat.eqb y 129 && Nat.eqb z 159)
   || (Nat.eqb x 227 && Nat.eqb y 128 && Nat.eqb z 128))%bool.

Fixpoint lstrip (s : string) : string :=
  match s with
  | EmptyString => EmptyString
  | String a r =>
      if py_whitespace a then lstrip r
      else
        match r with
        | String b r2 =>
            if py_whitespace2 a b then lstrip r2
            else
              match r2 with
              | String c r3 => if py_whitespace3 a b c then lstrip r3 else s
              | EmptyString => s
              end
        | EmptyString => s
        end
  end.

(** From the right: what is left of the rest of the text decides whether the
    byte in front of it closes a white-space character. *)
Fixpoint rstrip (s : string) : string :=
  match s with
  | EmptyString => EmptyString
  | String a r =>
      match rstrip r with
      | EmptyString =>
          if py_whitespace a then EmptyString else String a EmptyString
      | String b EmptyString =>
          if py_whitespace2 a b then EmptyString
          else String a (String b EmptyString)
      | String b (String c EmptyString) =>
          if py_whitespace3 a b c then EmptyString
          else String a (String b (String c EmptyString))
      | r' => String a r'
      end
  end.

Definition strip (s : string) : string := rstrip (lstrip s).

(** A byte of an ASCII character that is no white space: it neither is nor
    begins nor ends a white-space character. *)
Definition plain (c : ascii) : bool :=
  (negb (py_whitespace c) && Nat.ltb (nat_of_ascii c) 128)%bool.

(** Texts of Python with white space outside ASCII at their ends: a no-break
    space (U+00A0) behind, an em space (U+2003) in front. *)
Definition nbsp : string :=
  String (ascii_of_nat 194) (String (ascii_of_nat 160) EmptyString).
Definition em_space : string :=
  String (ascii_of_nat 226)
    (String (ascii_of_nat 128) (String (ascii_of_nat 131) EmptyString)).

Module Gmail.

(** [....execute()] *)
Definition execute {A} (answer : A) (b : mailbox) : (string + A) * mailbox :=
  let n := api_requests b in
  let b' := Mailbox (api b) (S n) (marked_read b) (gmail_log b) in
  match gmail_error (api b) n with
  | Some e => (inl e, b')
  | None => (inr answer, b')
  end.

Definition mark_read (id : string) (b : mailbox) : mailbox :=
  Mailbox (api b) (api_requests b) (marked_read b ++ [id]) (gmail_log b).

Definition log_error (e : string) (b : mailbox) : mailbox :=
  Mailbox (api b) (api_requests b) (marked_read b)
          (gmail_log b ++ ["Error fetching Gmail messages: " +:+ e]).

(** [for message in messages]: one [get] and one [modify] per message. *)
Fixpoint fetch (messages : list string) (full_messages : list string)
    (b : mailbox) : (string + list string) * mailbox :=
  match messages with
  | [] => (inr full_messages, b)
  | id :: rest =>
      match execute (gmail_get (api b) id) b with
      | (inl e, b1) => (inl e, b1)
      | (inr msg, b1) =>
          match execute tt b1 with
          | (inl e, b2) => (inl e, b2)
          | (inr _, b2) => fetch rest (full_messages ++ [msg]) (mark_read id b2)
          end
      end
  end.

Definition full_query (query : string) : string :=
  strip ("is:unread " +:+ query).

Definition get_unread_messages (query : string) (b : mailbox)
    : list string * mailbox :=
  match execute (gmail_list (api b) (api_requests b) (full_query query)) b with
  | (inl e, b1) => ([], log_error e b1)
  | (inr messages, b1) =>
      match fetch messages [] b1 with
      | (inl e, b2) => ([], log_error e b2)
      | (inr full_messages, b2) => (full_messages, b2)
      end
  end.

End Gmail.

(** [Supervisor.process_email_task] and [Supervisor.monitor_email_tasks];
    [get_unread_messages] raises nothing, so the handler of the latter is
    never entered. *)
Definition process_email_task (email_message : string) (b : mailbox) : mailbox := b.

Definition monitor_email_tasks (b : mailbox) : mailbox :=
  let '(messages, b1) := Gmail.get_unread_messages "subject:New Campaign Task" b in
  fold_left (fun b' msg => process_email_task msg b') messages b1.

(** The requests of a call that all go through: [k] of them from the next. *)
Definition requests_served (b : mailbox) (k : nat) : Prop :=
  forall i, i < k -> gmail_error (api b) (api_requests b + i) = None.

(** A mailbox that lists three messages, and one whose service fails the
    request numbered [n]. *)
Definition sample_api (fails_at : option nat) : gmail_api :=
  GmailApi (fun n => if bool_decide (fails_at = Some n) then Some "HttpError 503" else None)
           (fun _ q => if String.eqb q "is:unread subject:New Campaign Task"
                       then ["m1"; "m2"; "m3"] else [])
           (fun id => "task " +:+ id).

Definition sample_mailbox (fails_at : option nat) : mailbox :=
  Mailbox (sample_api fails_at) 0 [] [].

(** ** Supervisor.send_report

    The report mail goes through an SMTP session of its own; the model takes
    as given whether the n-th of these sessions goes through, and records
    the mails handed to them. *)

From stdpp Require Import pretty.

Record smtp_config : Type := SmtpConfig {
  smtp_server : string;
  smtp_port : nat;
  smtp_email : string;
  smtp_password : string
}.

Record report_mail : Type := ReportMail {
  mail_subject : string;
  mail_from : string;
  mail_to : string;
  mail_body : string
}.

Record office : Type := Office {
  crm : world;
  (** whether the n-th session of [send_report] delivers its mail *)
  report_delivers : nat -> bool;
  (** the mails [send_report] has handed to a session, in order *)
  report_mails : list report_mail;
  (** the "Failed to send report" entries logged *)
  report_failures : nat
}.

Definition line_feed : string := String (ascii_of_nat 10) EmptyString.
Definition indent : string := "        ".

(** The f-string of [send_report], before [strip()]. *)
Definition report_body (r : report) : string :=
  line_feed +:+ indent +:+ "Sales Campaign Report:" +:+
  line_feed +:+ indent +:+ "Total Leads: " +:+ pretty (total_leads r) +:+
  line_feed +:+ indent +:+ "Verified Leads: " +:+ pretty (verified r) +:+
  line_feed +:+ indent +:+ "Responses:" +:+
  line_feed +:+ indent +:+ "- Interested: "
    +:+ pretty (responses r !!! "Interested") +:+
  line_feed +:+ indent +:+ "- Not Interested: "
    +:+ pretty (responses r !!! "Not Interested") +:+
  line_feed +:+ indent +:+ "- No Response: "
    +:+ pretty (responses r !!! "No Response") +:+
  line_feed +:+ indent.

Definition send_report (recipient : string) (smtp_config : smtp_config)
    (o : office) : result unit * office :=
  match Supervisor.generate_report (crm o) with
  | (Raise e, w) =>
      (Raise e, Office w (report_delivers o) (report_mails o) (report_failures o))
  | (Return report, w) =>
      let msg := ReportMail "Daily Campaign Report" (smtp_email smtp_config)
                            recipient (strip (report_body report)) in
      (Return tt,
       Office w (report_delivers o) (report_mails o ++ [msg])
              (if report_delivers o (length (report_mails o))
               then report_failures o else S (report_failures o)))
  end.

(** The text of a report mail: the title and six lines, each but the first
    behind the indentation of the source, with nothing before or after. *)
Definition report_lines (total verified interested not_interested no_response : nat)
    : string :=
  "Sales Campaign Report:" +:+
  line_feed +:+ indent +:+ "Total Leads: " +:+ pretty total +:+
  line_feed +:+ indent +:+ "Verified Leads: " +:+ pretty verified +:+
  line_feed +:+ indent +:+ "Responses:" +:+
  line_feed +:+ indent +:+ "- Interested: " +:+ pretty interested +:+
  line_feed +:+ indent +:+ "- Not Interested: " +:+ pretty not_interested +:+
  line_feed +:+ indent +:+ "- No Response: " +:+ pretty no_response.

(** * Properties *)

(** ** TaskQueue *)

Section TaskQueueFacts.

Lemma run_ops_snoc (ops : list queue_op) (op : queue_op) :
  run_ops (ops ++ [op]) = run_op (run_ops ops) op.
Proof. unfold run_ops. by rewrite fold_left_app. Qed.

Lemma tasks_of_snoc (polls : list (option lead)) (t : option lead) :
  tasks_of (polls ++ [t]) = tasks_of polls ++ option_list t.
Proof. unfold tasks_of. rewrite omap_app. by destruct t. Qed.

(** A poll never blocks: [get] is only reached on a queue that has an element. *)
Lemma get_verification_task_answers (q : TaskQueue) :
  get_verification_task q =
    match verification_queue q with
    | [] => Answered None q
    | l :: rest => Answered (Some l) (MkTaskQueue rest (outreach_queue q))
    end.
Proof. unfold get_verification_task. by destruct (verification_queue q). Qed.

Lemma get_outreach_task_answers (q : TaskQueue) :
  get_outreach_task q =
    match outreach_queue q with
    | [] => Answered None q
    | l :: rest => Answered (Some l) (MkTaskQueue (verification_queue q) rest)
    end.
Proof. unfold get_outreach_task. by destruct (outreach_queue q). Qed.

End TaskQueueFacts.

(** C8. On either channel a poll of an empty channel answers at once with
    nothing, a poll of a channel that holds tasks answers at once with the
    oldest of them and takes it off, and no poll is ever suspended; over any
    sequence of puts and polls, the tasks a channel handed out followed by
    those still waiting in it are the tasks put on it, in the order they
    were put (first in, first out, a task put twice is handed out twice),
    and the other channel plays no part. *)
Theorem task_queue_fifo_nonblocking (ops : list queue_op) :
  (forall q : TaskQueue,
      get_verification_task q <> Suspended /\ get_outreach_task q <> Suspended) /\
  (forall out : list lead,
      get_verification_task (MkTaskQueue [] out) = Answered None (MkTaskQueue [] out)) /\
  (forall ver : list lead,
      get_outreach_task (MkTaskQueue ver []) = Answered None (MkTaskQueue ver [])) /\
  (forall (l : lead) (rest out : list lead),
      get_verification_task (MkTaskQueue (l :: rest) out)
      = Answered (Some l) (MkTaskQueue rest out)) /\
  (forall (l : lead) (rest ver : list lead),
      get_outreach_task (MkTaskQueue ver (l :: rest))
      = Answered (Some l) (MkTaskQueue ver rest)) /\
  run_suspended (run_ops ops) = false /\
  tasks_of (got_verification (run_ops ops))
    ++ verification_queue (run_queue (run_ops ops)) = added_verification ops /\
  tasks_of (got_outreach (run_ops ops))
    ++ outreach_queue (run_queue (run_ops ops)) = added_outreach ops.
Proof.
  split; [|split; [|split; [|split; [|split]]]]; try done.
  - intros q. rewrite get_verification_task_answers, get_outreach_task_answers.
    by destruct (verification_queue q), (outreach_queue q).
  - induction ops as [|op ops IH] using rev_ind; [done|].
    destruct IH as (Hs & Hv & Ho).
    rewrite run_ops_snoc. unfold added_verification, added_outreach in *.
    rewrite !omap_app, <- Hv, <- Ho. clear Hv Ho.
    destruct op as [l|l| |]; simpl.
    + rewrite !app_nil_r. unfold Queue.put. by rewrite app_assoc.
    + rewrite !app_nil_r. unfold Queue.put. by rewrite app_assoc.
    + rewrite get_verification_task_answers.
      destruct (verification_queue (run_queue (run_ops ops))) as [|l rest] eqn:E;
        simpl; rewrite ?E, tasks_of_snoc, !app_nil_r; simpl;
        rewrite ?app_nil_r; try done.
      by rewrite <- app_assoc.
    + rewrite get_outreach_task_answers.
      destruct (outreach_queue (run_queue (run_ops ops))) as [|l rest] eqn:E;
        simpl; rewrite ?E, tasks_of_snoc, !app_nil_r; simpl;
        rewrite ?app_nil_r; try done.
      by rewrite <- app_assoc.
Qed.

Lemma task_queue_fifo_nonblocking_witness :
  let ops := [AddVerification acme_lead; AddOutreach zero_number_lead;
              AddVerification zero_number_lead; GetVerification; GetOutreach;
              GetOutreach; GetVerification] in
  got_verification (run_ops ops) = [Some acme_lead; Some zero_number_lead] /\
  got_outreach (run_ops ops) = [Some zero_number_lead; None] /\
  get_verification_task (MkTaskQueue [acme_lead; zero_number_lead] [])
  = Answered (Some acme_lead) (MkTaskQueue [zero_number_lead] []) /\
  tasks_of (got_verification (run_ops ops))
    ++ verification_queue (run_queue (run_ops ops))
  = [acme_lead; zero_number_lead].
Proof.
  intros ops.
  destruct (task_queue_fifo_nonblocking ops)
    as (_ & _ & _ & Holdest & _ & _ & Hv & _).
  split; [by vm_compute|]. split; [by vm_compute|].
  split; [apply Holdest|exact Hv].
Defined.

Example fifo_two_channels :
  let r := run_ops [AddVerification acme_lead; AddOutreach zero_number_lead;
                    AddVerification acme_lead; GetOutreach; GetOutreach;
                    GetVerification] in
  got_outreach r = [Some zero_number_lead; None] /\
  got_verification r = [Some acme_lead] /\
  verification_queue (run_queue r) = [acme_lead].
Proof. by vm_compute. Qed.

(** ** CRMHandler.update_lead *)

Section UpdateLead.
Import CRMHandler.

Lemma set_log_same (w : world) : set_log (log w) w = w.
Proof. by destruct w. Qed.

Lemma list_index_lookup (col : string) (hs : list string) (i : nat) :
  list_index col hs = Some i -> hs !! i = Some col.
Proof.
  revert i. induction hs as [|h hs IH]; intros i; simpl; [done|].
  destruct (String.eqb_spec h col) as [->|Hne].
  - by intros [= <-].
  - destruct (list_index col hs) as [j|]; [|done].
    intros [= <-]. simpl. by apply IH.
Qed.

Lemma list_index_inj (c1 c2 : string) (hs : list string) (i : nat) :
  list_index c1 hs = Some i -> list_index c2 hs = Some i -> c1 = c2.
Proof.
  intros H1 H2. apply list_index_lookup in H1, H2. congruence.
Qed.

(** The loop of [update_lead] as a whole: the cells of the names found, in
    order, and one log line per name not found. *)
Lemma collect_cells_spec hs row_index updates cells w :
  collect_cells hs row_index updates cells w =
    (Return (cells ++ resolved_cells hs row_index updates),
     set_log (log w ++ (ColumnNotFound <$> unknown_columns hs updates)) w).
Proof.
  revert cells w. induction updates as [|[col val] rest IH]; intros cells w.
  - simpl. unfold ret, resolved_cells. simpl.
    by rewrite !app_nil_r, set_log_same.
  - simpl. unfold resolved_cells, unknown_columns in *. simpl.
    destruct (list_index col hs) as [i|] eqn:E; simpl.
    + rewrite IH. by rewrite <- app_assoc.
    + unfold bind, log_error, modify. rewrite IH. simpl.
      by rewrite <- app_assoc.
Qed.

(** [update_lead], request by request. *)
Lemma update_lead_spec row_index updates w :
  update_lead row_index updates w =
    let n := requests w in
    match sheet_api_error (ext w) n with
    | Some msg => (Raise (Exn APIError msg), set_requests (S n) w)
    | None =>
        let w1 := set_log (log w ++ (ColumnNotFound <$> unknown_columns (headers w) updates))
                          (set_requests (S n) w) in
        match resolved_cells (headers w) row_index updates with
        | [] => (Return tt, w1)
        | cells =>
            match sheet_api_error (ext w) (S n) with
            | Some msg => (Raise (Exn APIError msg), set_requests (S (S n)) w1)
            | None =>
                (Return tt,
                 set_grid (fold_left write_cell cells (grid w))
                          (set_requests (S (S n)) w1))
            end
        end
    end.
Proof.
  unfold update_lead, row_values_1, bind, sheet_request, gets. simpl.
  destruct (sheet_api_error (ext w) (requests w)); [done|].
  rewrite collect_cells_spec. simpl.
  destruct (resolved_cells (headers w) row_index updates) as [|c cs]; [done|].
  unfold update_cells, bind, sheet_request, modify. simpl.
  by destruct (sheet_api_error (ext w) (S (requests w))).
Qed.

Lemma fold_write_cell_other cells g p :
  (forall c, c ∈ cells -> (cell_row c, cell_col c) <> p) ->
  fold_left write_cell cells g !! p = g !! p.
Proof.
  revert g. induction cells as [|c cs IH]; intros g Hp; [done|].
  simpl. rewrite IH.
  - unfold write_cell. apply lookup_insert_ne. apply Hp. by left.
  - intros c' Hc'. apply Hp. by right.
Qed.

Lemma elem_of_resolved_cells hs row_index updates c :
  c ∈ resolved_cells hs row_index updates ->
  exists col val i, (col, val) ∈ updates /\ list_index col hs = Some i /\
                    c = Cell (row_index + 2) (i + 1) val.
Proof.
  unfold resolved_cells. rewrite list_elem_of_omap.
  intros ([col val] & Hin & Hc). simpl in Hc.
  destruct (list_index col hs) as [i|] eqn:E; [|done].
  injection Hc as <-. by exists col, val, i.
Qed.

(** Distinct names of one update never write the same cell, so each name the
    header row has ends up holding its own value. *)
Lemma resolved_cells_applied hs row_index updates g col val i :
  NoDup updates.*1 -> (col, val) ∈ updates -> list_index col hs = Some i ->
  fold_left write_cell (resolved_cells hs row_index updates) g
    !! (row_index + 2, i + 1) = Some val.
Proof.
  revert g. induction updates as [|[c v] rest IH]; intros g Hnd Hin Hi.
  - by apply elem_of_nil in Hin.
  - apply NoDup_cons in Hnd as [Hfresh Hnd]. simpl in Hfresh.
    apply elem_of_cons in Hin as [[= -> ->]|Hin].
    + unfold resolved_cells. simpl. rewrite Hi. simpl.
      rewrite fold_write_cell_other.
      * unfold write_cell. simpl. apply lookup_insert_eq.
      * intros c' Hc'. apply elem_of_resolved_cells in Hc'
          as (col' & val' & i' & Hin' & Hi' & ->). simpl.
        intros [= E]. assert (i' = i) as -> by lia.
        rewrite (list_index_inj _ _ _ _ Hi' Hi) in Hin'.
        apply Hfresh. apply list_elem_of_fmap. by exists (c, val').
    + unfold resolved_cells. simpl.
      destruct (list_index c hs) as [j|]; simpl; by apply IH.
Qed.

Lemma resolved_cells_known hs row_index updates :
  resolved_cells hs row_index (known_updates hs updates)
  = resolved_cells hs row_index updates.
Proof.
  unfold resolved_cells, known_updates.
  induction updates as [|[col val] rest IH]; [done|].
  cbn [List.filter fst]. destruct (list_index col hs) as [i|] eqn:E.
  - rewrite bool_decide_eq_true_2 by eauto. cbn. rewrite E. cbn. by f_equal.
  - rewrite bool_decide_eq_false_2 by (by intros [? ?]). cbn. by rewrite E.
Qed.

Lemma elem_of_unknown_columns hs updates col val :
  (col, val) ∈ updates -> list_index col hs = None ->
  col ∈ unknown_columns hs updates.
Proof.
  intros Hin Hnone. unfold unknown_columns. apply list_elem_of_omap.
  exists (col, val). split; [done|]. simpl. by rewrite Hnone.
Qed.

(** What a call of [update_lead] can do to the world. *)
Lemma update_lead_outcome row_index updates w r w' :
  update_lead row_index updates w = (r, w') ->
  same_agents w w' /\
  match r with
  | Return _ =>
      grid w' = fold_left write_cell
                  (resolved_cells (headers w) row_index updates) (grid w)
  | Raise e => grid w' = grid w /\ exn_kind e = APIError
  end.
Proof.
  rewrite update_lead_spec. simpl.
  destruct (sheet_api_error (ext w) (requests w)).
  { intros [= <- <-]. by repeat split. }
  destruct (resolved_cells (headers w) row_index updates) as [|c cs] eqn:E.
  { intros [= <- <-]. by repeat split. }
  destruct (sheet_api_error (ext w) (S (requests w))).
  { intros [= <- <-]. by repeat split. }
  intros [= <- <-]. by repeat split.
Qed.

End UpdateLead.

(** C9. A call of [update_lead] with distinct field names ends the same way
    and leaves the same sheet as the call with only the names the header row
    has.  When the worksheet accepts the requests of the call, the call
    returns, every name the header row has is written to its column in the row
    of the lead, and every name it lacks is logged: a name that is not a
    column never makes the update fail. *)
Theorem update_lead_skips_unknown_columns
    (row_index : nat) (updates : list (string * value)) (w : world) :
  NoDup updates.*1 ->
  (CRMHandler.update_lead row_index updates w).1
    = (CRMHandler.update_lead row_index (known_updates (headers w) updates) w).1 /\
  grid (CRMHandler.update_lead row_index updates w).2
    = grid (CRMHandler.update_lead row_index (known_updates (headers w) updates) w).2 /\
  (sheet_api_error (ext w) (requests w) = None ->
   sheet_api_error (ext w) (S (requests w)) = None ->
   (CRMHandler.update_lead row_index updates w).1 = Return tt /\
   (forall col val i,
       (col, val) ∈ updates -> list_index col (headers w) = Some i ->
       cell_at (CRMHandler.update_lead row_index updates w).2 row_index i = Some val) /\
   (forall col val,
       (col, val) ∈ updates -> list_index col (headers w) = None ->
       ColumnNotFound col ∈ log (CRMHandler.update_lead row_index updates w).2)).
Proof.
  intros Hnd. rewrite !update_lead_spec. simpl.
  rewrite resolved_cells_known.
  destruct (sheet_api_error (ext w) (requests w)) as [msg|] eqn:E0.
  { repeat split; done. }
  destruct (resolved_cells (headers w) row_index updates) as [|c cs] eqn:Ec.
  { simpl. repeat split; try done.
    - intros col val i Hin Hi. exfalso.
      pose proof (resolved_cells_applied (headers w) row_index updates ∅
                    col val i Hnd Hin Hi) as Happlied.
      rewrite Ec in Happlied. simpl in Happlied. by rewrite lookup_empty in Happlied.
    - intros col val Hin Hnone. apply elem_of_app. right.
      apply list_elem_of_fmap. exists col. split; [done|].
      by eapply elem_of_unknown_columns. }
  destruct (sheet_api_error (ext w) (S (requests w))) as [msg|] eqn:E1.
  { repeat split; done. }
  repeat split; try done.
  - intros col val i Hin Hi. unfold cell_at, set_grid. cbn [snd grid].
    change (fold_left CRMHandler.write_cell (c :: cs) (grid w)
              !! (row_index + 2, i + 1) = Some val).
    rewrite <- Ec. by apply (resolved_cells_applied _ _ _ _ col).
  - intros col val Hin Hnone. apply elem_of_app. right.
    apply list_elem_of_fmap. exists col. split; [done|].
    by eapply elem_of_unknown_columns.
Qed.

Lemma update_lead_skips_unknown_columns_witness :
  (CRMHandler.update_lead 3
     [("Processing Status", PStr "Verified"); ("Score", PInt 7)] quiet_world).1
    = Return tt /\
  cell_at (CRMHandler.update_lead 3
             [("Processing Status", PStr "Verified"); ("Score", PInt 7)]
             quiet_world).2 3 4 = Some (PStr "Verified") /\
  ColumnNotFound "Score"
    ∈ log (CRMHandler.update_lead 3
             [("Processing Status", PStr "Verified"); ("Score", PInt 7)]
             quiet_world).2.
Proof.
  destruct (update_lead_skips_unknown_columns 3
              [("Processing Status", PStr "Verified"); ("Score", PInt 7)]
              quiet_world) as (_ & _ & Hok).
  { apply (bool_decide_unpack _). by vm_compute. }
  destruct Hok as (Hret & Hcells & Hlog); [reflexivity|reflexivity|].
  split; [exact Hret|]. split.
  - apply (Hcells "Processing Status"); [by left|reflexivity].
  - apply (Hlog "Score" (PInt 7)); [right; by left|reflexivity].
Defined.

(** ** AgentA.process_lead *)

Section Verification.
Import CRMHandler.

(** The [try] of [process_lead], statement by statement. *)
Lemma process_lead_try_spec l w :
  AgentA.process_lead_try l w =
    match update_lead (lead_index l) [("Processing Status", PStr "Verifying")] w with
    | (Raise e, w1) => (Raise e, w1)
    | (Return _, w1) =>
        match computed_status (ext w1) (lead_data l) with
        | Raise e => (Raise e, w1)
        | Return status =>
            match update_lead (lead_index l)
                    (AgentA.verified_updates status (wall_clock (ext w1) (clock_reads w1)))
                    (set_clock_reads (S (clock_reads w1)) w1) with
            | (Raise e, w3) => (Raise e, w3)
            | (Return _, w3) =>
                (Return tt,
                 if String.eqb status "Y"
                 then set_task_queue (add_outreach_task l (task_queue w3)) w3
                 else w3)
            end
        end
    end.
Proof.
  unfold AgentA.process_lead_try, bind at 1.
  destruct (update_lead _ _ w) as [[u|e] w1]; [|done].
  unfold computed_status, bind, lift, validate_email, now_strftime.
  destruct (subscript _ _) as [email|e]; [|done].
  destruct (EmailValidator.validate _ _) as [is_valid|e]; [|done].
  destruct (AgentA.perform_additional_checks _) as [passed|e]; [|done].
  destruct (update_lead _ _ _) as [[u3|e] w3]; [|done].
  destruct (is_valid && passed)%bool; simpl; by unfold modify, ret.
Qed.

Lemma computed_status_Y_or_N x d status :
  computed_status x d = Return status -> status = "Y" \/ status = "N".
Proof.
  unfold computed_status.
  destruct (subscript _ _); [|done].
  destruct (EmailValidator.validate _ _); [|done].
  destruct (AgentA.perform_additional_checks _); [|done].
  intros [= <-]. destruct (_ && _)%bool; auto.
Qed.

Lemma str_in_elem_of s l : str_in s l = true <-> s ∈ l.
Proof.
  unfold str_in. induction l as [|h t IH]; simpl.
  - split; [done|]. intros H. by apply elem_of_nil in H.
  - rewrite orb_true_iff, IH, elem_of_cons.
    by destruct (String.eqb_spec s h); split; intros [|]; auto.
Qed.

Lemma additional_checks_passed d passed :
  AgentA.perform_additional_checks d = Return passed ->
  passed =
    (negb (str_in (lower (field_text d "Industry")) ["competitor"; "direct competitor"])
     && negb (String.eqb (lower (field_text d "Company")) "test company")
     && (truthy (d !! "Email") && truthy (d !! "Company")
         && truthy (d !! "Contact Number")))%bool.
Proof.
  unfold AgentA.perform_additional_checks, AgentA.check_industry,
    AgentA.check_company_size, AgentA.check_contact_details, get_lower,
    field_text.
  destruct (d !! "Industry") as [[industry| |]|]; simpl; try done.
  all: destruct (d !! "Company") as [[company| |]|]; simpl; try done.
  all: intros [= <-]; btauto.
Qed.

(** On a run of the checks that raises nothing, the status is ["Y"] exactly
    when the address is valid, the industry and the company are not on the
    exclusion lists and the three required fields are truthy. *)
Lemma computed_status_Y x d status :
  computed_status x d = Return status ->
  status = "Y" <-> passes_verification is_truthy x d.
Proof.
  unfold computed_status, passes_verification, address_valid, is_truthy, subscript.
  destruct (d !! "Email") as [email|] eqn:Eemail; [|done].
  destruct (EmailValidator.validate x email) as [is_valid|] eqn:Evalid; [|done].
  destruct (AgentA.perform_additional_checks d) as [passed|] eqn:Epassed; [|done].
  apply additional_checks_passed in Epassed. intros [= <-].
  rewrite <- str_in_elem_of, <- String.eqb_neq, <- Eemail.
  transitivity ((is_valid && passed)%bool = true).
  { destruct (is_valid && passed)%bool; split; done. }
  rewrite Epassed, !andb_true_iff, !negb_true_iff, not_true_iff_false.
  split.
  - intros (-> & (? & ?) & (? & ?) & ?). repeat split; eauto.
  - intros ((email' & Hemail & Hv) & ? & ? & ? & ? & ?).
    assert (email' = email) as -> by congruence.
    assert (is_valid = true) as -> by congruence. done.
Qed.

Lemma verified_updates_NoDup status now :
  NoDup (AgentA.verified_updates status now).*1.
Proof. apply (bool_decide_unpack _). by vm_compute. Qed.

Lemma error_updates_NoDup e : NoDup (AgentA.error_updates e).*1.
Proof. apply (bool_decide_unpack _). by vm_compute. Qed.

(** A call of [update_lead] that returns has written the update. *)
Lemma update_lead_written l hs updates w w' :
  NoDup updates.*1 -> hs = headers w ->
  update_lead (lead_index l) updates w = (Return tt, w') ->
  written updates l hs w'.
Proof.
  intros Hnd -> Hu. apply update_lead_outcome in Hu as [_ Hgrid].
  intros col val i Hin Hi. unfold cell_at. rewrite Hgrid.
  by apply (resolved_cells_applied _ _ _ _ col).
Qed.

(** What the [try] leaves behind, however it ends. *)
Lemma process_lead_try_outcome l w r w' :
  AgentA.process_lead_try l w = (r, w') ->
  ext w' = ext w /\ headers w' = headers w /\
  match r with
  | Return _ =>
      exists status,
        computed_status (ext w) (lead_data l) = Return status /\
        outreach_queue (task_queue w') =
          (if String.eqb status "Y"
           then outreach_queue (task_queue w) ++ [l]
           else outreach_queue (task_queue w)) /\
        written (AgentA.verified_updates status
                   (wall_clock (ext w) (clock_reads w))) l (headers w) w'
  | Raise _ => task_queue w' = task_queue w
  end.
Proof.
  rewrite process_lead_try_spec.
  destruct (update_lead _ _ w) as [[u|e1] w1] eqn:E1.
  2:{ apply update_lead_outcome in E1 as [(?&?&?&?) _].
      intros [= <- <-]. done. }
  apply update_lead_outcome in E1 as [(Hx&Hh&Hq&_&_&Hc&_) _].
  rewrite Hx, Hc.
  destruct (computed_status _ _) as [status|e2] eqn:Es.
  2:{ intros [= <- <-]. done. }
  destruct (update_lead _ _ (set_clock_reads _ _)) as [[[]|e3] w3] eqn:E3.
  2:{ apply update_lead_outcome in E3 as [(?&?&?&?) _].
      intros [= <- <-]. simpl in *. repeat split; congruence. }
  pose proof E3 as Hw.
  apply (update_lead_written l (headers w)) in Hw;
    [|apply verified_updates_NoDup|by simpl].
  apply update_lead_outcome in E3 as [(Hx3&Hh3&Hq3&_) _]. simpl in *.
  intros [= <- <-].
  split; [destruct (String.eqb status "Y"); simpl; congruence|].
  split; [destruct (String.eqb status "Y"); simpl; congruence|].
  exists status. split; [done|]. split.
  - destruct (String.eqb status "Y"); simpl; by rewrite Hq3, Hq.
  - intros col val i Hin Hi. unfold cell_at.
    destruct (String.eqb status "Y"); by apply (Hw col).
Qed.

Lemma process_lead_except_outcome l e w r w' :
  AgentA.process_lead_except l e w = (r, w') ->
  task_queue w' = task_queue w /\
  ErrorProcessingLead (lead_data l !! "Email") e ∈ log w' /\
  (r = Return tt -> written (AgentA.error_updates e) l (headers w) w').
Proof.
  unfold AgentA.process_lead_except, bind, log_error, modify.
  set (w1 := set_log _ w). intros Hu. split; [|split].
  - by apply update_lead_outcome in Hu as [(?&?&?&?) _].
  - revert Hu. rewrite update_lead_spec. simpl.
    repeat case_match; intros [= <- <-]; simpl; set_solver.
  - intros ->. apply (update_lead_written l (headers w)) in Hu;
      [done|apply error_updates_NoDup|done].
Qed.

Lemma snoc_neq {A} (q : list A) (x : A) : q ++ [x] <> q.
Proof.
  intros H. apply (f_equal length) in H. rewrite length_app in H.
  simpl in H. lia.
Qed.

End Verification.

(** The verdict the code writes.  When the [try] of [AgentA.process_lead]
    raises nothing, the update written back carries emailVerified ["Y"] if
    and only if the address validation passes, the industry is neither
    "competitor" nor "direct competitor" and the company is not "test
    company" (both compared in lower case), and Email, Company and Contact
    Number all hold a truthy value (text that is not empty, or a number that
    is not zero); otherwise it carries ["N"].  In both cases it carries
    processingStatus ["Verified"] and a verification date. *)
Theorem verification_writes_status (l : lead) (w w' : world) :
  AgentA.process_lead_try l w = (Return tt, w') ->
  verification_written is_truthy l w w'.
Proof.
  intros Htry. apply process_lead_try_outcome in Htry
    as (_ & _ & status & Hs & _ & Hw).
  exists status, (wall_clock (ext w) (clock_reads w)). split; [|done].
  pose proof (computed_status_Y _ _ _ Hs) as HY.
  destruct (computed_status_Y_or_N _ _ _ Hs) as [->| ->].
  - left. split; [done|]. by apply HY.
  - right. split; [done|]. intros Hp. apply HY in Hp. done.
Qed.

Lemma verification_writes_status_witness :
  let w' := (AgentA.process_lead_try acme_lead quiet_world).2 in
  AgentA.process_lead_try acme_lead quiet_world = (Return tt, w') /\
  verification_written is_truthy acme_lead quiet_world w'.
Proof.
  assert (AgentA.process_lead_try acme_lead quiet_world
          = (Return tt, (AgentA.process_lead_try acme_lead quiet_world).2))
    as Hrun by (vm_compute; reflexivity).
  split; [exact Hrun|].
  exact (verification_writes_status acme_lead quiet_world _ Hrun).
Defined.

(** With the reading "the field is not empty", the rule fails on a lead
    whose Contact Number cell reads 0: the address is valid, no exclusion
    applies and none of the three fields is empty, and the status written is
    ["N"]. *)
Lemma zero_number_is_not_verified :
  let w' := (AgentA.process_lead_try zero_number_lead quiet_world).2 in
  AgentA.process_lead_try zero_number_lead quiet_world = (Return tt, w') /\
  cell_at w' 0 5 = Some (PStr "N") /\
  passes_verification nonempty (ext quiet_world) (lead_data zero_number_lead) /\
  ~ verification_written nonempty zero_number_lead quiet_world w'.
Proof.
  assert (passes_verification nonempty (ext quiet_world)
            (lead_data zero_number_lead)) as Hpass.
  { split; [|split; [|split; [|split; [|split]]]].
    - exists (PStr "ann@acme.org"). split; by vm_compute.
    - apply (bool_decide_unpack _). by vm_compute.
    - apply (bool_decide_unpack _). by vm_compute.
    - exists (PStr "ann@acme.org"). split; [by vm_compute|discriminate].
    - exists (PStr "Acme"). split; [by vm_compute|discriminate].
    - exists (PInt 0). split; [by vm_compute|discriminate]. }
  assert (cell_at (AgentA.process_lead_try zero_number_lead quiet_world).2 0 5
          = Some (PStr "N")) as Hcell by (vm_compute; reflexivity).
  split; [vm_compute; reflexivity|]. split; [exact Hcell|].
  split; [exact Hpass|].
  intros (status & now & [[-> _]|[_ Hnot]] & Hw).
  - assert (cell_at (AgentA.process_lead_try zero_number_lead quiet_world).2 0 5
            = Some (PStr "Y")) as Hy.
    { apply (Hw "Email Verified (Y/N)" (PStr "Y") 5); [by left|reflexivity]. }
    rewrite Hcell in Hy. discriminate Hy.
  - by apply Hnot.
Qed.

Example check_syntax_samples :
  EmailValidator._check_syntax "ann@acme.org" = true /\
  EmailValidator._check_syntax "a.b+c@mail-1.co.uk" = true /\
  EmailValidator._check_syntax "bad-email" = false /\
  EmailValidator._check_syntax "ann@acme" = false /\
  EmailValidator._check_syntax "ann smith@acme.org" = false /\
  EmailValidator._check_syntax "@acme.org" = false /\
  EmailValidator._check_syntax "" = false.
Proof. by vm_compute. Qed.

Example disposable_address_is_rejected :
  EmailValidator.validate (ext quiet_world) (PStr "a@Test.com") = Return false /\
  EmailValidator.validate (ext quiet_world) (PStr "ann@acme.org") = Return true.
Proof. by vm_compute. Qed.

Example bad_email_is_rejected :
  let l := Lead 4 (<["Email" := PStr "bad-email"]> (lead_data acme_lead)) in
  let w' := (AgentA.process_lead l quiet_world).2 in
  cell_at w' 4 5 = Some (PStr "N") /\
  outreach_queue (task_queue w') = [].
Proof. by vm_compute. Qed.

Example acme_lead_is_verified :
  let w' := (AgentA.process_lead acme_lead quiet_world).2 in
  cell_at w' 0 5 = Some (PStr "Y") /\
  cell_at w' 0 4 = Some (PStr "Verified") /\
  outreach_queue (task_queue w') = [acme_lead].
Proof. by vm_compute. Qed.

Example test_company_is_rejected :
  let w' := (AgentA.process_lead test_company_lead quiet_world).2 in
  cell_at w' 1 5 = Some (PStr "N") /\
  cell_at w' 1 4 = Some (PStr "Verified") /\
  outreach_queue (task_queue w') = [].
Proof. by vm_compute. Qed.

Example numeric_company_is_an_error :
  let l := Lead 2 (<["Company" := PInt 42]> (lead_data acme_lead)) in
  let w' := (AgentA.process_lead l quiet_world).2 in
  cell_at w' 2 4 = Some (PStr "Error") /\
  cell_at w' 2 9
  = Some (PStr "Verification failed: 'int' object has no attribute 'lower'") /\
  outreach_queue (task_queue w') = [].
Proof. by vm_compute. Qed.

(** C2 (amended). [AgentA.process_lead] puts the lead on the outreach
    channel if and only if the status it computes is ["Y"] and its [try]
    raises nothing; in every other case, and so whenever the status is
    ["N"], the outreach channel is left as it was. *)
Theorem outreach_iff_verified_and_written (l : lead) (w : world) :
  (enqueued_for_outreach l w \/ outreach_untouched l w) /\
  (enqueued_for_outreach l w <->
     computed_status (ext w) (lead_data l) = Return "Y" /\
     (AgentA.process_lead_try l w).1 = Return tt) /\
  (computed_status (ext w) (lead_data l) = Return "N" -> outreach_untouched l w).
Proof.
  unfold enqueued_for_outreach, outreach_untouched, AgentA.process_lead, try_except.
  destruct (AgentA.process_lead_try l w) as [[[]|e] w1] eqn:Htry.
  - apply process_lead_try_outcome in Htry as (_ & _ & status & Hs & Hq & _).
    simpl. rewrite Hq, Hs.
    destruct (computed_status_Y_or_N _ _ _ Hs) as [->| ->]; simpl.
    + split; [by left|]. split; [done|]. intros E; discriminate E.
    + split; [by right|]. split; [|done]. split.
      * intros Habs. symmetry in Habs. by apply snoc_neq in Habs.
      * intros [E _]; discriminate E.
  - apply process_lead_try_outcome in Htry as (_ & _ & Hq1).
    destruct (AgentA.process_lead_except l e w1) as [r w2] eqn:Hex.
    apply process_lead_except_outcome in Hex as (Hq2 & _).
    simpl. rewrite Hq2, Hq1. split; [by right|]. split; [|done]. split.
    + intros Habs. symmetry in Habs. by apply snoc_neq in Habs.
    + intros [_ E]; discriminate E.
Qed.

(** The status computed is ["Y"], the worksheet refuses the write-back, and
    the lead is not put on the outreach channel. *)
Lemma refused_writeback_keeps_lead_out :
  computed_status (ext (refusing_world 2)) (lead_data acme_lead) = Return "Y" /\
  outreach_untouched acme_lead (refusing_world 2) /\
  ~ (enqueued_for_outreach acme_lead (refusing_world 2) <->
     computed_status (ext (refusing_world 2)) (lead_data acme_lead) = Return "Y").
Proof.
  assert (computed_status (ext (refusing_world 2)) (lead_data acme_lead)
          = Return "Y") as Hy by (vm_compute; reflexivity).
  split; [exact Hy|]. split; [vm_compute; reflexivity|].
  intros [_ Hen]. specialize (Hen Hy). unfold enqueued_for_outreach in Hen.
  vm_compute in Hen. discriminate Hen.
Qed.

(** C5 (amended). When the [try] of [AgentA.process_lead] raises, the
    exception is caught and logged, nothing is put on the outreach channel,
    and the handler issues the update processingStatus ["Error"] with the
    note "Verification failed: " followed by the text of the exception; when
    that update returns, the sheet holds both values in the columns it has. *)
Theorem exception_marks_error (l : lead) (w w1 : world) (e : exn) :
  AgentA.process_lead_try l w = (Raise e, w1) ->
  outreach_untouched l w /\
  ErrorProcessingLead (lead_data l !! "Email") e ∈ log (AgentA.process_lead l w).2 /\
  ((AgentA.process_lead l w).1 = Return tt ->
   written [("Processing Status", PStr "Error");
            ("Notes", PStr ("Verification failed: " +:+ exn_str e))]
           l (headers w) (AgentA.process_lead l w).2).
Proof.
  intros Htry. unfold outreach_untouched, AgentA.process_lead, try_except.
  rewrite Htry.
  apply process_lead_try_outcome in Htry as (_ & Hh & Hq1).
  destruct (AgentA.process_lead_except l e w1) as [r w2] eqn:Hex.
  apply process_lead_except_outcome in Hex as (Hq2 & Hlog & Hw).
  simpl. rewrite Hq2, Hq1, <- Hh. done.
Qed.

Lemma exception_marks_error_witness :
  AgentA.process_lead_try acme_lead (refusing_world 2)
  = (Raise (Exn APIError "quota exceeded"),
     (AgentA.process_lead_try acme_lead (refusing_world 2)).2) /\
  (AgentA.process_lead acme_lead (refusing_world 2)).1 = Return tt /\
  written [("Processing Status", PStr "Error");
           ("Notes", PStr "Verification failed: quota exceeded")]
          acme_lead sample_headers
          (AgentA.process_lead acme_lead (refusing_world 2)).2.
Proof.
  assert (AgentA.process_lead_try acme_lead (refusing_world 2)
          = (Raise (Exn APIError "quota exceeded"),
             (AgentA.process_lead_try acme_lead (refusing_world 2)).2))
    as Hrun by (vm_compute; reflexivity).
  assert ((AgentA.process_lead acme_lead (refusing_world 2)).1 = Return tt)
    as Hret by (vm_compute; reflexivity).
  split; [exact Hrun|]. split; [exact Hret|].
  destruct (exception_marks_error acme_lead (refusing_world 2) _ _ Hrun)
    as (_ & _ & Hw).
  exact (Hw Hret).
Defined.

(** A worksheet that refuses every request: the first update raises, the
    update of the handler raises as well, and [process_lead] ends with that
    exception and a sheet without the error. *)
Lemma unreachable_sheet_records_nothing :
  (AgentA.process_lead acme_lead unreachable_world).1
  = Raise (Exn APIError "service unavailable") /\
  grid (AgentA.process_lead acme_lead unreachable_world).2 = ∅ /\
  ~ failure_recorded acme_lead unreachable_world.
Proof.
  assert ((AgentA.process_lead acme_lead unreachable_world).1
          = Raise (Exn APIError "service unavailable")) as Hraise
    by (vm_compute; reflexivity).
  split; [exact Hraise|]. split; [vm_compute; reflexivity|].
  intros Hrec.
  destruct (Hrec (Exn APIError "service unavailable")
              (AgentA.process_lead_try acme_lead unreachable_world).2)
    as (Hret & _); [vm_compute; reflexivity|].
  rewrite Hraise in Hret. discriminate Hret.
Qed.

(** ** AgentB: outreach and the retry queue *)

Section Outreach.
Import CRMHandler.

Lemma send_email_spec d w :
  AgentB.send_email d w =
    match d !! "Email" with
    | None => (Raise (Exn KeyError "'Email'"), w)
    | Some to =>
        if smtp_delivers (ext w) (length (outbox w))
        then (Return true, set_outbox (outbox w ++ [d]) w)
        else (Return false,
              set_log (log w ++ [FailedToSendEmail to])
                      (set_outbox (outbox w ++ [d]) w))
    end.
Proof.
  unfold AgentB.send_email, bind, lift, subscript.
  destruct (d !! "Email"); [|done]. by destruct (smtp_delivers _ _).
Qed.

(** The four ways the body of the retry loop can treat an entry: dropped at
    three attempts, no address to send to, delivered, or failed and put back
    with one more attempt. *)
Lemma retry_entry_outcome l a w r w1 :
  AgentB.retry_entry (l, a) w = (r, w1) ->
  (ext w1 = ext w /\ headers w1 = headers w /\ grid w1 = grid w /\
   task_queue w1 = task_queue w) /\
  ((3 <= a /\ r = Return tt /\ outbox w1 = outbox w /\
    retry_queue w1 = retry_queue w) \/
   (a < 3 /\ lead_data l !! "Email" = None /\ (exists e, r = Raise e) /\
    outbox w1 = outbox w /\ retry_queue w1 = retry_queue w) \/
   (a < 3 /\ is_Some (lead_data l !! "Email") /\
    smtp_delivers (ext w) (length (outbox w)) = true /\ r = Return tt /\
    outbox w1 = outbox w ++ [lead_data l] /\ retry_queue w1 = retry_queue w) \/
   (a < 3 /\ is_Some (lead_data l !! "Email") /\
    smtp_delivers (ext w) (length (outbox w)) = false /\ r = Return tt /\
    outbox w1 = outbox w ++ [lead_data l] /\
    retry_queue w1 = retry_queue w ++ [(l, a + 1)])).
Proof.
  unfold AgentB.retry_entry.
  destruct (Nat.ltb_spec a 3) as [Hlt|Hge].
  2:{ intros [= <- <-]. split; [done|]. left. done. }
  unfold bind at 1. rewrite send_email_spec.
  destruct (lead_data l !! "Email") as [to|] eqn:Eto.
  2:{ intros [= <- <-]. split; [done|]. right. left. eauto 10. }
  destruct (smtp_delivers _ _) eqn:Ed; simpl.
  - intros [= <- <-]. split; [done|]. right. right. left. eauto 10.
  - intros [= <- <-]. split; [done|]. right. right. right. eauto 10.
Qed.

(** Induction over the passes of the retry loop. *)
Lemma retry_loop_ind (P : world -> result unit * world -> Prop) :
  (forall w, retry_queue w = [] -> P w (Return tt, w)) ->
  (forall w l a rest w1,
      retry_queue w = (l, a) :: rest ->
      AgentB.retry_entry (l, a) (set_retry_queue rest w) = (Return tt, w1) ->
      P w1 (AgentB.process_retry_queue w1) ->
      P w (AgentB.process_retry_queue w1)) ->
  (forall w l a rest e w1,
      retry_queue w = (l, a) :: rest ->
      AgentB.retry_entry (l, a) (set_retry_queue rest w) = (Raise e, w1) ->
      P w (Raise e, w1)) ->
  forall w, P w (AgentB.process_retry_queue w).
Proof.
  intros Hnil Hnext Hraise.
  apply (AgentB.process_retry_queue_elim P); simpl.
  - intros w Hq _. by apply Hnil.
  - intros w [l a] rest [] w1 Hs Hq IH _ _. by eapply Hnext.
  - intros w [l a] rest e w1 Hs Hq _ _. by eapply Hraise.
Qed.

(** One pass of the loop. *)
Lemma process_retry_queue_unfold w :
  AgentB.process_retry_queue w =
    match retry_queue w with
    | [] => (Return tt, w)
    | entry :: rest =>
        match AgentB.retry_entry entry (set_retry_queue rest w) with
        | (Return _, w1) => AgentB.process_retry_queue w1
        | (Raise e, w1) => (Raise e, w1)
        end
    end.
Proof.
  revert w. apply (retry_loop_ind (fun w r => r = match retry_queue w with
    | [] => (Return tt, w)
    | entry :: rest =>
        match AgentB.retry_entry entry (set_retry_queue rest w) with
        | (Return _, w1) => AgentB.process_retry_queue w1
        | (Raise e, w1) => (Raise e, w1)
        end
    end)).
  - intros w ->. done.
  - intros w l a rest w1 -> -> _. done.
  - intros w l a rest e w1 -> ->. done.
Qed.

(** The loop never touches the sheet or the task queue. *)
Lemma process_retry_queue_frame w :
  ext (AgentB.process_retry_queue w).2 = ext w /\
  headers (AgentB.process_retry_queue w).2 = headers w /\
  grid (AgentB.process_retry_queue w).2 = grid w /\
  task_queue (AgentB.process_retry_queue w).2 = task_queue w.
Proof.
  revert w. apply (retry_loop_ind (fun w r =>
    ext r.2 = ext w /\ headers r.2 = headers w /\ grid r.2 = grid w /\
    task_queue r.2 = task_queue w)).
  - done.
  - intros w l a rest w1 _ Hs (?&?&?&?).
    apply retry_entry_outcome in Hs as [(?&?&?&?) _]. simpl in *.
    repeat split; congruence.
  - intros w l a rest e w1 _ Hs.
    apply retry_entry_outcome in Hs as [(?&?&?&?) _]. done.
Qed.

(** When the loop returns, the queue is empty. *)
Lemma process_retry_queue_drains w :
  (AgentB.process_retry_queue w).1 = Return tt ->
  retry_queue (AgentB.process_retry_queue w).2 = [].
Proof.
  revert w. apply (retry_loop_ind (fun w r =>
    r.1 = Return tt -> retry_queue r.2 = [])).
  - done.
  - intros w l a rest w1 _ _ IH. done.
  - intros w l a rest e w1 _ _ [=].
Qed.

(** The loop raises only on an entry without an address. *)
Lemma process_retry_queue_returns w :
  Forall (fun entry => is_Some (lead_data entry.1 !! "Email")) (retry_queue w) ->
  (AgentB.process_retry_queue w).1 = Return tt.
Proof.
  revert w. apply (retry_loop_ind (fun w r =>
    Forall (fun entry => is_Some (lead_data entry.1 !! "Email")) (retry_queue w) ->
    r.1 = Return tt)).
  - done.
  - intros w l a rest w1 Hq Hs IH Hall. rewrite Hq in Hall.
    apply Forall_cons in Hall as [Hl Hrest]. apply IH.
    apply retry_entry_outcome in Hs
      as [_ [(_&_&_&->)|[(_&_&[? [=]]&_)|[(_&_&_&_&_&->)|(_&_&_&_&_&->)]]]];
      simpl; try done.
    apply Forall_app. split; [done|]. by apply Forall_singleton.
  - intros w l a rest e w1 Hq Hs Hall. rewrite Hq in Hall.
    apply Forall_cons in Hall as [[to Hl] _]. simpl in Hl.
    apply retry_entry_outcome in Hs
      as [_ [(_&[=]&_)|[(_&Hn&_)|[(_&_&_&[=]&_)|(_&_&_&[=]&_)]]]].
    congruence.
Qed.

(** The sends of one call of the loop, for a queue whose entries all carry
    the same record: never more than the attempts the entries have left. *)
Lemma process_retry_queue_sends d w :
  Forall (fun entry => lead_data entry.1 = d) (retry_queue w) ->
  exists k, k <= sends_left (retry_queue w) /\
            outbox (AgentB.process_retry_queue w).2 = outbox w ++ replicate k d.
Proof.
  revert w. apply (retry_loop_ind (fun w r =>
    Forall (fun entry => lead_data entry.1 = d) (retry_queue w) ->
    exists k, k <= sends_left (retry_queue w) /\
              outbox r.2 = outbox w ++ replicate k d)).
  - intros w _ _. exists 0. split; [lia|]. simpl. by rewrite app_nil_r.
  - intros w l a rest w1 Hq Hs IH Hall. rewrite Hq in Hall |- *.
    apply Forall_cons in Hall as [Hl Hrest]. simpl in Hl.
    unfold sends_left in *. simpl.
    apply retry_entry_outcome in Hs
      as [_ [(_&_&Ho&Hr)|[(_&_&[? [=]]&_)|[(Ha&_&_&_&Ho&Hr)|(Ha&_&_&_&Ho&Hr)]]]];
      simpl in Ho, Hr; rewrite Hr in IH.
    + destruct (IH Hrest) as (k & Hk & Hout). exists k. split; [lia|].
      by rewrite Hout, Ho.
    + destruct (IH Hrest) as (k & Hk & Hout). exists (S k). split; [lia|].
      rewrite Hout, Ho, Hl. simpl. by rewrite <- app_assoc.
    + destruct IH as (k & Hk & Hout).
      { apply Forall_app. split; [done|]. by apply Forall_singleton. }
      rewrite sum_list_with_app in Hk. simpl in Hk.
      exists (S k). split; [lia|].
      rewrite Hout, Ho, Hl. simpl. by rewrite <- app_assoc.
  - intros w l a rest e w1 Hq Hs Hall.
    apply retry_entry_outcome in Hs
      as [_ [(_&[=]&_)|[(_&_&_&Ho&_)|[(_&_&_&[=]&_)|(_&_&_&[=]&_)]]]].
    exists 0. split; [lia|]. simpl in *. by rewrite app_nil_r.
Qed.

(** With a mail server that fails every session, one call of the loop spends
    every attempt the entries have left. *)
Lemma process_retry_queue_exhausts w :
  (forall n, smtp_delivers (ext w) n = false) ->
  Forall (fun entry => is_Some (lead_data entry.1 !! "Email")) (retry_queue w) ->
  length (outbox (AgentB.process_retry_queue w).2)
  = length (outbox w) + sends_left (retry_queue w).
Proof.
  revert w. apply (retry_loop_ind (fun w r =>
    (forall n, smtp_delivers (ext w) n = false) ->
    Forall (fun entry => is_Some (lead_data entry.1 !! "Email")) (retry_queue w) ->
    length (outbox r.2) = length (outbox w) + sends_left (retry_queue w))).
  - intros w -> _ _. simpl. unfold sends_left. simpl. lia.
  - intros w l a rest w1 Hq Hs IH Hfail Hall. rewrite Hq in Hall |- *.
    apply Forall_cons in Hall as [Hl Hrest]. simpl in Hl.
    unfold sends_left in *. simpl.
    apply retry_entry_outcome in Hs
      as [(Hx&_) [(Ha&_&Ho&Hr)|[(_&_&[? [=]]&_)|[(_&_&Hd&_)|(Ha&_&_&_&Ho&Hr)]]]];
      simpl in *.
    + rewrite Hr, Ho in IH. rewrite IH; [lia| |done].
      intros n. rewrite Hx. apply Hfail.
    + rewrite Hfail in Hd. done.
    + rewrite Hr, Ho in IH. rewrite IH.
      * rewrite length_app, sum_list_with_app. simpl. lia.
      * intros n. rewrite Hx. apply Hfail.
      * apply Forall_app. split; [done|]. by apply Forall_singleton.
  - intros w l a rest e w1 Hq Hs Hfail Hall. rewrite Hq in Hall.
    apply Forall_cons in Hall as [[to Hl] _]. simpl in Hl.
    apply retry_entry_outcome in Hs
      as [_ [(_&[=]&_)|[(_&Hn&_)|[(_&_&_&[=]&_)|(_&_&_&[=]&_)]]]].
    congruence.
Qed.

(** The [try] of [AgentB.process_lead], statement by statement. *)
Lemma outreach_try_spec l w :
  AgentB.process_lead_try l w =
    match update_lead (lead_index l) [("Processing Status", PStr "Outreach")] w with
    | (Raise e, w1) => (Raise e, w1)
    | (Return _, w1) =>
        match AgentB.send_email (lead_data l) w1 with
        | (Raise e, w2) => (Raise e, w2)
        | (Return false, w2) =>
            (Return tt, set_retry_queue (retry_queue w2 ++ [(l, 1)]) w2)
        | (Return true, w2) =>
            update_lead (lead_index l)
              (AgentB.completed_updates (wall_clock (ext w2) (clock_reads w2)))
              (set_clock_reads (S (clock_reads w2)) w2)
        end
    end.
Proof.
  unfold AgentB.process_lead_try, bind at 1.
  destruct (update_lead _ _ w) as [[u|e] w1]; [|done].
  unfold bind at 1.
  destruct (AgentB.send_email _ _) as [[[|]|e] w2]; simpl; try done.
Qed.

Lemma outreach_except_frame l e w :
  outbox (AgentB.process_lead_except l e w).2 = outbox w /\
  retry_queue (AgentB.process_lead_except l e w).2 = retry_queue w.
Proof.
  unfold AgentB.process_lead_except, bind, log_error, modify.
  destruct (update_lead _ _ _) as [r w'] eqn:Hu.
  apply update_lead_outcome in Hu as [(_&_&_&?&?&_) _]. done.
Qed.

(** What a call of [AgentB.process_lead] does to the outbox and the retry
    queue: at most one send, and an entry with one attempt after a failed one. *)
Lemma outreach_process_lead_outcome l w :
  let w1 := (AgentB.process_lead l w).2 in
  (outbox w1 = outbox w /\ retry_queue w1 = retry_queue w) \/
  (outbox w1 = outbox w ++ [lead_data l] /\ retry_queue w1 = retry_queue w) \/
  (outbox w1 = outbox w ++ [lead_data l] /\
   retry_queue w1 = retry_queue w ++ [(l, 1)] /\
   is_Some (lead_data l !! "Email")).
Proof.
  unfold AgentB.process_lead, try_except. rewrite outreach_try_spec.
  destruct (update_lead _ _ w) as [[u|e] w1] eqn:E1.
  2:{ apply update_lead_outcome in E1 as [(_&_&_&Hr&Ho&_) _].
      destruct (outreach_except_frame l e w1) as [Ho' Hr'].
      left. simpl. split; congruence. }
  apply update_lead_outcome in E1 as [(Hx&_&_&Hr&Ho&_) _].
  rewrite send_email_spec.
  destruct (lead_data l !! "Email") as [to|] eqn:Eto.
  2:{ destruct (outreach_except_frame l (Exn KeyError "'Email'") w1) as [Ho' Hr'].
      left. simpl. split; congruence. }
  destruct (smtp_delivers _ _).
  - destruct (update_lead _ _ _) as [[u3|e3] w3] eqn:E3.
    + apply update_lead_outcome in E3 as [(_&_&_&Hr3&Ho3&_) _].
      right. left. simpl in *. split; congruence.
    + apply update_lead_outcome in E3 as [(_&_&_&Hr3&Ho3&_) _].
      destruct (outreach_except_frame l e3 w3) as [Ho' Hr'].
      right. left. simpl in *. split; congruence.
  - right. right. simpl. rewrite Hr, Ho. eauto.
Qed.

(** A failed first send: the lead stays at "Outreach" and waits in the retry
    queue with one attempt. *)
Lemma outreach_first_send_fails l w to i :
  lead_data l !! "Email" = Some to ->
  list_index "Processing Status" (headers w) = Some i ->
  sheet_api_error (ext w) (requests w) = None ->
  sheet_api_error (ext w) (S (requests w)) = None ->
  smtp_delivers (ext w) (length (outbox w)) = false ->
  exists w1,
    AgentB.process_lead l w = (Return tt, w1) /\
    retry_queue w1 = retry_queue w ++ [(l, 1)] /\
    outbox w1 = outbox w ++ [lead_data l] /\
    ext w1 = ext w /\ headers w1 = headers w /\
    grid w1 = <[(lead_index l + 2, i + 1) := PStr "Outreach"]> (grid w).
Proof.
  intros Hto Hi Ha0 Ha1 Hd.
  unfold AgentB.process_lead, try_except. rewrite outreach_try_spec.
  rewrite update_lead_spec. simpl. rewrite Ha0.
  unfold resolved_cells. simpl. rewrite Hi. simpl. rewrite Ha1.
  rewrite send_email_spec, Hto. simpl. rewrite Hd.
  eexists. split; [reflexivity|]. simpl. done.
Qed.

(** One pass of the retry loop over an entry whose send fails, and over one
    whose send is delivered. *)
Lemma retry_pass_fails l a rest w to :
  retry_queue w = (l, a) :: rest -> a < 3 ->
  lead_data l !! "Email" = Some to ->
  smtp_delivers (ext w) (length (outbox w)) = false ->
  exists w1,
    AgentB.process_retry_queue w = AgentB.process_retry_queue w1 /\
    retry_queue w1 = rest ++ [(l, a + 1)] /\
    outbox w1 = outbox w ++ [lead_data l] /\
    ext w1 = ext w /\ headers w1 = headers w /\ grid w1 = grid w.
Proof.
  intros Hq Ha Hto Hd. rewrite process_retry_queue_unfold, Hq.
  unfold AgentB.retry_entry. apply Nat.ltb_lt in Ha. rewrite Ha.
  unfold bind at 1. rewrite send_email_spec, Hto. simpl. rewrite Hd.
  unfold AgentB.retry_put, modify. simpl.
  eexists. split; [reflexivity|]. simpl. done.
Qed.

Lemma retry_pass_delivers l a rest w to :
  retry_queue w = (l, a) :: rest -> a < 3 ->
  lead_data l !! "Email" = Some to ->
  smtp_delivers (ext w) (length (outbox w)) = true ->
  exists w1,
    AgentB.process_retry_queue w = AgentB.process_retry_queue w1 /\
    retry_queue w1 = rest /\
    outbox w1 = outbox w ++ [lead_data l] /\
    ext w1 = ext w /\ headers w1 = headers w /\ grid w1 = grid w.
Proof.
  intros Hq Ha Hto Hd. rewrite process_retry_queue_unfold, Hq.
  unfold AgentB.retry_entry. apply Nat.ltb_lt in Ha. rewrite Ha.
  unfold bind at 1. rewrite send_email_spec, Hto. simpl. rewrite Hd.
  unfold ret. eexists. split; [reflexivity|]. simpl. done.
Qed.

(** An entry that has reached three attempts is taken off the queue and
    nothing else happens to the world. *)
Lemma retry_pass_drops l a rest w :
  retry_queue w = (l, a) :: rest -> 3 <= a ->
  AgentB.process_retry_queue w
  = AgentB.process_retry_queue (set_retry_queue rest w).
Proof.
  intros Hq Ha. rewrite process_retry_queue_unfold, Hq.
  unfold AgentB.retry_entry.
  apply Nat.ltb_ge in Ha. rewrite Ha. done.
Qed.

End Outreach.

(** C3. [start_processing] calls [process_retry_queue] right before it takes
    a lead, so [AgentB.process_lead] is entered with an empty retry queue.
    From there the lead is sent at most three times in all by that call and
    the call of [process_retry_queue] that follows it, after which the retry
    queue is empty again; the retry loop never writes to the sheet, and an
    entry whose counter has reached 3 is taken off the queue with no send and
    no update. *)
Theorem at_most_three_sends (l : lead) (w : world) :
  retry_queue w = [] ->
  let w1 := (AgentB.process_lead l w).2 in
  let w2 := (AgentB.process_retry_queue w1).2 in
  (exists k, k <= 3 /\ outbox w2 = outbox w ++ replicate k (lead_data l)) /\
  (AgentB.process_retry_queue w1).1 = Return tt /\
  retry_queue w2 = [] /\
  grid w2 = grid w1 /\
  (forall (w0 : world) (l0 : lead) (rest : list (lead * nat)),
      retry_queue w0 = (l0, 3) :: rest ->
      AgentB.process_retry_queue w0
      = AgentB.process_retry_queue (set_retry_queue rest w0) /\
      grid (set_retry_queue rest w0) = grid w0 /\
      outbox (set_retry_queue rest w0) = outbox w0).
Proof.
  intros Hempty. simpl.
  assert (Forall (fun entry => is_Some (lead_data entry.1 !! "Email"))
            (retry_queue (AgentB.process_lead l w).2) /\
          Forall (fun entry => lead_data entry.1 = lead_data l)
            (retry_queue (AgentB.process_lead l w).2) /\
          exists j, j + sends_left (retry_queue (AgentB.process_lead l w).2) <= 3 /\
                    outbox (AgentB.process_lead l w).2
                    = outbox w ++ replicate j (lead_data l))
    as (Hemail & Hsame & j & Hj & Hout).
  { destruct (outreach_process_lead_outcome l w)
      as [[Ho Hr]|[[Ho Hr]|(Ho & Hr & Hto)]]; rewrite Hr, Hempty; simpl.
    - repeat split; try done. exists 0. rewrite Ho. simpl.
      split; [unfold sends_left; simpl; lia|by rewrite app_nil_r].
    - repeat split; try done. exists 1. rewrite Ho.
      split; [unfold sends_left; simpl; lia|done].
    - repeat split; try (by apply Forall_singleton). exists 1. rewrite Ho.
      split; [unfold sends_left; simpl; lia|done]. }
  pose proof (process_retry_queue_returns _ Hemail) as Hret.
  destruct (process_retry_queue_sends _ _ Hsame) as (k & Hk & Hout2).
  split; [|split; [done|split; [by apply process_retry_queue_drains|split]]].
  - exists (j + k). split; [lia|].
    rewrite Hout2, Hout, <- app_assoc. by rewrite replicate_add.
  - apply process_retry_queue_frame.
  - intros w0 l0 rest Hq. split; [|done]. by apply (retry_pass_drops l0 3).
Qed.

Lemma at_most_three_sends_witness :
  let w1 := (AgentB.process_lead acme_lead (failing_first 5)).2 in
  let w2 := (AgentB.process_retry_queue w1).2 in
  retry_queue (failing_first 5) = [] /\
  length (outbox w2) = 3 /\
  retry_queue w2 = [] /\
  cell_at w2 0 4 = Some (PStr "Outreach").
Proof.
  assert (retry_queue (failing_first 5) = []) as Hempty by reflexivity.
  destruct (at_most_three_sends acme_lead (failing_first 5) Hempty)
    as (_ & _ & Hdrained & _).
  split; [exact Hempty|]. split; [vm_compute; reflexivity|].
  split; [exact Hdrained|]. vm_compute; reflexivity.
Defined.

(** C4 (what the code does). A lead whose first two sends fail and whose
    third send is delivered has been sent three times and has left the retry
    queue, and its processingStatus cell still reads ["Outreach"]: the retry
    loop writes neither ["Completed"] nor a response status. *)
Theorem retried_lead_stays_at_outreach
    (l : lead) (w : world) (to : value) (i : nat) :
  retry_queue w = [] ->
  lead_data l !! "Email" = Some to ->
  list_index "Processing Status" (headers w) = Some i ->
  sheet_api_error (ext w) (requests w) = None ->
  sheet_api_error (ext w) (S (requests w)) = None ->
  smtp_delivers (ext w) (length (outbox w)) = false ->
  smtp_delivers (ext w) (S (length (outbox w))) = false ->
  smtp_delivers (ext w) (S (S (length (outbox w)))) = true ->
  let w2 := (AgentB.process_retry_queue (AgentB.process_lead l w).2).2 in
  outbox w2 = outbox w ++ replicate 3 (lead_data l) /\
  retry_queue w2 = [] /\
  cell_at w2 (lead_index l) i = Some (PStr "Outreach") /\
  (forall j, j <> i -> cell_at w2 (lead_index l) j = cell_at w (lead_index l) j).
Proof.
  intros Hempty Hto Hi Ha0 Ha1 Hd0 Hd1 Hd2. simpl.
  destruct (outreach_first_send_fails l w to i Hto Hi Ha0 Ha1 Hd0)
    as (w1 & -> & Hr1 & Ho1 & Hx1 & Hh1 & Hg1).
  cbn [snd]. rewrite Hempty in Hr1. simpl in Hr1.
  destruct (retry_pass_fails l 1 [] w1 to Hr1) as (w2 & -> & Hr2 & Ho2 & Hx2 & _ & Hg2);
    [lia|done| |].
  { rewrite Hx1, Ho1, length_app. simpl. by rewrite Nat.add_1_r. }
  simpl in Hr2.
  destruct (retry_pass_delivers l 2 [] w2 to Hr2) as (w3 & -> & Hr3 & Ho3 & _ & _ & Hg3);
    [lia|done| |].
  { rewrite Hx2, Hx1, Ho2, Ho1, !length_app. simpl. by rewrite !Nat.add_1_r. }
  rewrite process_retry_queue_unfold, Hr3. simpl.
  unfold cell_at. rewrite Hr3, Ho3, Ho2, Ho1, Hg3, Hg2, Hg1, <- !app_assoc.
  repeat split.
  - apply lookup_insert_eq.
  - intros j Hj. apply lookup_insert_ne. intros [= E]. lia.
Qed.

Lemma retried_lead_stays_at_outreach_witness :
  let w2 := (AgentB.process_retry_queue
               (AgentB.process_lead acme_lead (failing_first 2)).2).2 in
  outbox w2 = replicate 3 (lead_data acme_lead) /\
  retry_queue w2 = [] /\
  cell_at w2 0 4 = Some (PStr "Outreach") /\
  cell_at w2 0 7 = None.
Proof.
  destruct (retried_lead_stays_at_outreach acme_lead (failing_first 2)
              (PStr "ann@acme.org") 4)
    as (Hout & Hdrained & Hstatus & Hrest); try reflexivity.
  split; [exact Hout|]. split; [exact Hdrained|]. split; [exact Hstatus|].
  transitivity (cell_at (failing_first 2) 0 7);
    [apply (Hrest 7); discriminate|reflexivity].
Defined.

(** C10. Whenever [process_retry_queue] returns, the retry queue is empty;
    an entry put back after a failed send is tried again in the same call,
    so with a mail server that fails every session a single call spends
    every attempt the entries of the queue have left. *)
Theorem retry_queue_drained_in_one_call (w : world) :
  ((AgentB.process_retry_queue w).1 = Return tt ->
   retry_queue (AgentB.process_retry_queue w).2 = []) /\
  (Forall (fun entry => is_Some (lead_data entry.1 !! "Email")) (retry_queue w) ->
   (AgentB.process_retry_queue w).1 = Return tt /\
   ((forall n, smtp_delivers (ext w) n = false) ->
    length (outbox (AgentB.process_retry_queue w).2)
    = length (outbox w) + sends_left (retry_queue w))).
Proof.
  split; [apply process_retry_queue_drains|].
  intros Hall. split; [by apply process_retry_queue_returns|].
  intros Hfail. by apply process_retry_queue_exhausts.
Qed.

Lemma retry_queue_drained_in_one_call_witness :
  let w := set_retry_queue [(acme_lead, 1)] never_delivering in
  (AgentB.process_retry_queue w).1 = Return tt /\
  retry_queue (AgentB.process_retry_queue w).2 = [] /\
  length (outbox (AgentB.process_retry_queue w).2) = 2.
Proof.
  destruct (retry_queue_drained_in_one_call
              (set_retry_queue [(acme_lead, 1)] never_delivering))
    as (Hdrained & Hrest).
  destruct Hrest as (Hret & Hsends).
  { apply Forall_singleton. by exists (PStr "ann@acme.org"). }
  split; [exact Hret|]. split; [exact (Hdrained Hret)|].
  rewrite Hsends; [reflexivity|]. intros n. reflexivity.
Defined.

(** ** Supervisor.generate_report *)

Section Report.

Lemma tally_lookup rs l s :
  Supervisor.tally rs l !! s
  = (fun n => n + (if decide (Supervisor.response_status l = PStr s) then 1 else 0))
      <$> rs !! s.
Proof.
  unfold Supervisor.tally, Supervisor.response_status.
  destruct (default _ _) as [status|z|f].
  - destruct (rs !! status) as [n|] eqn:E.
    + destruct (decide (status = s)) as [->|Hne].
      * rewrite lookup_insert_eq, E. simpl. by rewrite decide_True.
      * rewrite lookup_insert_ne by done.
        rewrite decide_False by congruence.
        destruct (rs !! s); simpl; [f_equal; lia|done].
    + destruct (decide (PStr status = PStr s)) as [[= ->]|Hne].
      * by rewrite E.
      * destruct (rs !! s); simpl; [f_equal; lia|done].
  - rewrite decide_False by done.
    destruct (rs !! s); simpl; [f_equal; lia|done].
  - rewrite decide_False by done.
    destruct (rs !! s); simpl; [f_equal; lia|done].
Qed.

Lemma fold_tally_lookup leads rs s :
  fold_left Supervisor.tally leads rs !! s
  = (fun n => n + tallied_under s leads) <$> rs !! s.
Proof.
  revert rs. induction leads as [|l leads IH]; intros rs.
  - simpl. destruct (rs !! s); simpl; [f_equal; unfold tallied_under; simpl; lia|done].
  - simpl. rewrite IH, tally_lookup. unfold tallied_under.
    rewrite filter_cons.
    destruct (rs !! s); simpl; [|done].
    destruct (decide (Supervisor.response_status l = PStr s)); simpl; f_equal; lia.
Qed.

Lemma initial_responses_lookup s :
  Supervisor.initial_responses !! s
  = if bool_decide (s ∈ categories) then Some 0 else None.
Proof.
  unfold Supervisor.initial_responses, categories.
  destruct (decide (s = "Interested")) as [->|H1]; [done|].
  destruct (decide (s = "Not Interested")) as [->|H2]; [done|].
  destruct (decide (s = "No Response")) as [->|H3]; [done|].
  rewrite !lookup_insert_ne, lookup_empty by done.
  rewrite bool_decide_eq_false_2; [done|]. intros Hin.
  repeat (apply elem_of_cons in Hin as [?|Hin]; [done|]).
  by apply elem_of_nil in Hin.
Qed.

Lemma count_if_filter {A} (p : A -> bool) (P : A -> Prop)
    `{!forall x, Decision (P x)} (l : list A) :
  (forall x, p x = true <-> P x) ->
  Supervisor.count_if p l = length (filter P l).
Proof.
  intros Hp. unfold Supervisor.count_if.
  induction l as [|x l IH]; [done|]. simpl. rewrite filter_cons.
  destruct (p x) eqn:E.
  - rewrite decide_True by (by apply Hp). simpl. by rewrite IH.
  - rewrite decide_False; [done|]. intros HP. apply Hp in HP. congruence.
Qed.

Lemma tallied_at_most_once leads :
  tallied_under "Interested" leads + tallied_under "Not Interested" leads
  + tallied_under "No Response" leads <= length leads.
Proof.
  unfold tallied_under. induction leads as [|l leads IH]; [done|].
  rewrite !filter_cons. simpl.
  repeat case_decide; simpl; try lia; congruence.
Qed.

(** The tally of a list of records. *)
Lemma report_of_tallies (leads : list (gmap string value)) :
  let r := Supervisor.report_of leads in
  total_leads r = length leads /\
  verified r
    = length (filter (fun l => l !! "Email Verified (Y/N)" = Some (PStr "Y")) leads) /\
  (forall s, responses r !! s =
             if bool_decide (s ∈ categories)
             then Some (tallied_under s leads) else None) /\
  tallied_under "Interested" leads + tallied_under "Not Interested" leads
  + tallied_under "No Response" leads <= total_leads r.
Proof.
  simpl. split; [done|]. split; [|split].
  - apply count_if_filter. intros l. unfold Supervisor.is_verified.
    apply bool_decide_eq_true.
  - intros s. rewrite fold_tally_lookup, initial_responses_lookup.
    by case_bool_decide.
  - apply tallied_at_most_once.
Qed.

End Report.

(** C6. [generate_report] asks the worksheet for the records once.  Whatever
    sequence of records [get_leads] answers, the call returns a report whose
    total_leads is their number and whose verified is the number of records
    whose "Email Verified (Y/N)" is "Y"; its response counters are exactly
    the three categories Interested, Not Interested and No Response, each
    counting the records whose response status (No Response when the record
    has none) is that category, so a record with any other status is in none
    of them; and the three counters add up to at most total_leads.  Nothing
    else of the world changes.  When the worksheet refuses the request, its
    exception leaves the call. *)
Theorem report_tallies (w : world) :
  match sheet_api_error (ext w) (requests w) with
  | Some msg =>
      Supervisor.generate_report w
      = (Raise (Exn APIError msg), set_requests (S (requests w)) w)
  | None =>
      let leads := sheet_records (ext w) (requests w) in
      exists r : report,
        Supervisor.generate_report w
        = (Return r, set_requests (S (requests w)) w) /\
        total_leads r = length leads /\
        verified r
        = length (filter (fun l => l !! "Email Verified (Y/N)" = Some (PStr "Y"))
                         leads) /\
        (forall s, responses r !! s =
                   if bool_decide (s ∈ categories)
                   then Some (tallied_under s leads) else None) /\
        tallied_under "Interested" leads + tallied_under "Not Interested" leads
        + tallied_under "No Response" leads <= total_leads r
  end.
Proof.
  unfold Supervisor.generate_report, CRMHandler.get_leads,
    CRMHandler.get_all_records, CRMHandler.sheet_request, bind, gets, ret.
  destruct (sheet_api_error (ext w) (requests w)) as [msg|]; [done|].
  cbv zeta. eexists. split; [reflexivity|].
  apply report_of_tallies.
Qed.

(** The report of the sample sheet, whose first request answers two rows. *)
Lemma report_tallies_witness :
  exists r : report,
    Supervisor.generate_report sample_sheet_world
    = (Return r, set_requests 1 sample_sheet_world) /\
    total_leads r = 2 /\ verified r = 0 /\
    responses r !! "No Response" = Some 2 /\
    responses r !! "Pending Response" = None.
Proof.
  pose proof (report_tallies sample_sheet_world) as H. cbv zeta in H.
  change (sheet_api_error (ext sample_sheet_world) (requests sample_sheet_world))
    with (@None string) in H. cbv beta iota in H.
  destruct H as (r & Hr & Ht & Hv & Hs & _).
  exists r. split; [exact Hr|]. split; [exact Ht|]. split; [exact Hv|].
  split; rewrite Hs; reflexivity.
Defined.

Example report_of_four :
  let r := Supervisor.report_of
             [ {["Response Status" := PStr "Interested"]};
               ∅;
               {["Response Status" := PStr "Pending Response"]};
               <["Email Verified (Y/N)" := PStr "Y"]>
                 {["Response Status" := PStr "interested"]} ] in
  total_leads r = 4 /\ verified r = 1 /\
  responses r !! "Interested" = Some 1 /\
  responses r !! "Not Interested" = Some 0 /\
  responses r !! "No Response" = Some 1 /\
  responses r !! "Pending Response" = None.
Proof. by vm_compute. Qed.

(** ** Supervisor.monitor_new_leads *)

Section Discovery.
Import CRMHandler.

(** The leads of [get_new_leads] come in rising index order, all of them
    past the mark. *)
Lemma new_leads_rising last_row idx records :
  let ls := omap (fun '(i, record) =>
                    if Supervisor.is_new last_row i record
                    then Some (Lead i record) else None)
                 (Supervisor.enumerate_from idx records) in
  StronglySorted lt (lead_index <$> ls) /\
  Forall (fun l => idx <= lead_index l /\ last_row < lead_row l) ls.
Proof.
  revert idx. induction records as [|record records IH]; intros idx; simpl.
  { split; constructor. }
  destruct (IH (S idx)) as [Hsorted Hall].
  destruct (Supervisor.is_new last_row idx record) eqn:Enew; simpl.
  - split.
    + constructor; [done|]. apply Forall_fmap.
      eapply Forall_impl; [exact Hall|]. simpl. intros l [? _]. lia.
    + constructor.
      * unfold Supervisor.is_new in Enew. apply andb_true_iff in Enew as [E _].
        apply Nat.ltb_lt in E. unfold lead_row. simpl. lia.
      * eapply Forall_impl; [exact Hall|]. simpl. intros l [? ?]. lia.
  - split; [done|].
    eapply Forall_impl; [exact Hall|]. simpl. intros l [? ?]. lia.
Qed.

(** The loop of [monitor_new_leads] over leads in rising order past the mark:
    all of them are put on the channel and the mark ends at the last row. *)
Lemma assign_leads_outcome ls w :
  StronglySorted lt (lead_index <$> ls) ->
  Forall (fun l => last_processed_row w < lead_row l) ls ->
  exists w',
    Supervisor.assign_leads ls w = (Return tt, w') /\
    verification_queue (task_queue w') = verification_queue (task_queue w) ++ ls /\
    last_processed_row w <= last_processed_row w' /\
    Forall (fun l => lead_row l <= last_processed_row w') ls.
Proof.
  revert w. induction ls as [|l ls IH]; intros w Hsorted Hpast.
  { exists w. simpl. by rewrite app_nil_r. }
  rewrite fmap_cons in Hsorted.
  apply StronglySorted_inv in Hsorted as [Hsorted Hl].
  rewrite Forall_fmap in Hl.
  apply Forall_cons in Hpast as [Hlw Hpast].
  simpl. unfold bind, modify. simpl.
  set (w1 := set_last_processed_row _ _).
  destruct (IH w1) as (w' & Hrun & Hq & Hm & Hall); [done| |].
  { eapply Forall_impl; [exact Hl|].
    simpl. unfold lead_row. intros l'. lia. }
  exists w'. split; [done|]. simpl in *. split; [|split].
  - rewrite Hq. unfold Queue.put. by rewrite <- app_assoc.
  - unfold lead_row in *. lia.
  - constructor; [unfold lead_row in *; lia|done].
Qed.

(** One call of [monitor_new_leads]. *)
Lemma monitor_new_leads_outcome w :
  let w1 := (Supervisor.monitor_new_leads w).2 in
  last_processed_row w <= last_processed_row w1 /\
  StronglySorted lt (lead_index <$> enqueued_since w w1) /\
  Forall (fun l => last_processed_row w < lead_row l <= last_processed_row w1)
         (enqueued_since w w1) /\
  verification_queue (task_queue w1)
  = verification_queue (task_queue w) ++ enqueued_since w w1.
Proof.
  unfold Supervisor.monitor_new_leads, try_except, Supervisor.get_new_leads,
    get_all_records, bind, sheet_request, gets, ret, enqueued_since.
  destruct (sheet_api_error (ext w) (requests w)); simpl.
  { rewrite drop_all. repeat split; try done; try constructor.
    by rewrite app_nil_r. }
  set (w0 := set_requests _ w).
  destruct (new_leads_rising (last_processed_row w) 0
              (sheet_records (ext w) (requests w))) as [Hsorted Hall].
  destruct (assign_leads_outcome
              (Supervisor.new_leads_of (last_processed_row w)
                 (sheet_records (ext w) (requests w))) w0)
    as (w' & -> & Hq & Hm & Hle); [done| |].
  { eapply Forall_impl; [exact Hall|]. simpl. by intros l [_ ?]. }
  simpl in *. rewrite Hq, drop_app_length.
  repeat split; try done.
  apply Forall_and. split; [|done].
  eapply Forall_impl; [exact Hall|]. simpl. by intros l [_ ?].
Qed.

Lemma supervise_run_ok events w :
  run_ok (last_processed_row w) (supervise events w).1.
Proof.
  revert w. induction events as [|[|f] events IH]; intros w; simpl.
  - done.
  - destruct (supervise events _) as [ds w2] eqn:Erun. simpl.
    destruct (monitor_new_leads_outcome w) as (Hm & Hs & Hall & _).
    repeat split; try done.
    specialize (IH (Supervisor.monitor_new_leads w).2). by rewrite Erun in IH.
  - apply (IH (set_last_processed_row (last_processed_row w) (f w))).
Qed.

Lemma run_ok_facts m ds :
  run_ok m ds ->
  Forall (fun k => m <= k) (marks ds) /\
  StronglySorted le (marks ds) /\
  Forall (fun l => m < lead_row l) (all_discovered ds) /\
  StronglySorted lt (lead_index <$> all_discovered ds) /\
  Forall (fun d => Forall (fun l => mark_before d < lead_row l <= mark_after d)
                          (discovered d)) ds.
Proof.
  revert m. induction ds as [|d ds IH]; intros m; simpl.
  { intros _. unfold marks, all_discovered. simpl. repeat split; constructor. }
  intros (Hm & Hd & Hsorted & Hall & Hrest).
  destruct (IH _ Hrest) as (Hmarks & Hmsorted & Hpast & Hisorted & Heach).
  unfold marks, all_discovered in *. simpl. repeat split.
  - constructor; [done|]. constructor; [lia|].
    eapply Forall_impl; [exact Hmarks|]. simpl. lia.
  - constructor.
    + constructor; [done|done].
    + constructor; [done|].
      eapply Forall_impl; [exact Hmarks|]. simpl. lia.
  - apply Forall_app. split.
    + eapply Forall_impl; [exact Hall|]. simpl. lia.
    + eapply Forall_impl; [exact Hpast|]. simpl. lia.
  - rewrite fmap_app. apply StronglySorted_app_2; try done.
    intros i j Hi Hj.
    apply list_elem_of_fmap in Hi as (li & -> & Hi).
    apply list_elem_of_fmap in Hj as (lj & -> & Hj).
    rewrite Forall_forall in Hall, Hpast.
    specialize (Hall _ Hi). specialize (Hpast _ Hj).
    unfold lead_row in *. lia.
  - constructor; done.
Qed.

End Discovery.

(** C7. Over every run of the supervisor, in which calls of
    [monitor_new_leads] alternate with anything else that happens to the
    world, each call puts on the verification channel only leads whose row
    lies above the mark it started from, the marks read before and after the
    calls never go down, and the indexes of all the leads put on the channel
    rise strictly, so no index is ever put on it a second time. *)
Theorem discovery_respects_high_water_mark
    (events : list supervisor_event) (w : world) :
  let ds := (supervise events w).1 in
  Forall (fun d => Forall (fun l => mark_before d < lead_row l <= mark_after d)
                          (discovered d)) ds /\
  Forall (fun k => last_processed_row w <= k) (marks ds) /\
  StronglySorted le (marks ds) /\
  Forall (fun l => last_processed_row w < lead_row l) (all_discovered ds) /\
  StronglySorted lt (lead_index <$> all_discovered ds).
Proof.
  simpl. pose proof (supervise_run_ok events w) as Hok.
  apply run_ok_facts in Hok as (?&?&?&?&?). done.
Qed.

Example two_discoveries :
  let ds := (supervise [Discover; Elsewhere (set_grid ∅); Discover]
                       sample_sheet_world).1 in
  (mark_before <$> ds) = [1; 2] /\ (mark_after <$> ds) = [2; 4] /\
  (lead_index <$> all_discovered ds) = [0; 2].
Proof. by vm_compute. Qed.

(** * Further properties of the code *)

(** ** EmailValidator *)

Section Validator.

Lemma span_spec p s taken rest :
  EmailValidator.span p s = (taken, rest) ->
  s = taken +:+ rest /\ all_chars p taken = true /\
  match rest with
  | EmptyString => True
  | String c _ => p c = false
  end.
Proof.
  revert taken rest. induction s as [|c s IH]; intros taken rest; simpl.
  - by intros [= <- <-].
  - destruct (p c) eqn:Ec.
    + destruct (EmailValidator.span p s) as [t r].
      intros [= <- <-]. destruct (IH t r eq_refl) as (-> & Ht & Hr).
      simpl. by rewrite Ec.
    + intros [= <- <-]. by rewrite Ec.
Qed.

Lemma span_app p taken rest :
  all_chars p taken = true ->
  match rest with
  | EmptyString => True
  | String c _ => p c = false
  end ->
  EmailValidator.span p (taken +:+ rest) = (taken, rest).
Proof.
  intros Ht Hr. induction taken as [|c t IH]; simpl in *.
  - destruct rest as [|c r]; [done|]. simpl. by rewrite Hr.
  - apply andb_true_iff in Ht as [-> Ht]. by rewrite IH.
Qed.

Lemma nonempty_string_true s :
  EmailValidator.nonempty_string s = true <-> s <> "".
Proof. by destruct s. Qed.

(** A text put together from parts of the three classes matches. *)
Lemma check_syntax_of_parts local domain tail nl :
  local <> "" -> all_chars EmailValidator.local_char local = true ->
  domain <> "" -> all_chars EmailValidator.domain_char domain = true ->
  tail <> "" -> all_chars EmailValidator.tail_char tail = true ->
  nl = "" \/ nl = String "010" "" ->
  EmailValidator._check_syntax
    (local +:+ "@" +:+ domain +:+ "." +:+ tail +:+ nl) = true.
Proof.
  intros Hln Hl Hdn Hd Htn Ht Hnl. unfold EmailValidator._check_syntax.
  change ("@" +:+ domain +:+ "." +:+ tail +:+ nl)
    with (String "@" (domain +:+ String "." (tail +:+ nl))).
  rewrite (span_app _ local) by done. cbv beta iota zeta.
  rewrite (span_app _ domain) by done. cbv beta iota zeta.
  rewrite (span_app _ tail); [|done|by destruct Hnl as [-> | ->]].
  rewrite !andb_true_iff, !nonempty_string_true, orb_true_iff.
  repeat split; try done.
  destruct Hnl as [-> | ->]; [by left|by right].
Qed.

End Validator.

(** X1. [_check_syntax] accepts exactly the texts made of a local part, "@",
    a domain label, ".", and a tail, optionally followed by one line feed,
    where the three parts are not empty, the local part has only letters,
    digits and [_.+-], the label only letters, digits and [-], and the tail
    only letters, digits, [-] and [.]. *)
Theorem check_syntax_shape (s : string) :
  EmailValidator._check_syntax s = true <->
  exists local domain tail nl,
    s = local +:+ "@" +:+ domain +:+ "." +:+ tail +:+ nl /\
    local <> "" /\ all_chars EmailValidator.local_char local = true /\
    domain <> "" /\ all_chars EmailValidator.domain_char domain = true /\
    tail <> "" /\ all_chars EmailValidator.tail_char tail = true /\
    (nl = "" \/ nl = String "010" "").
Proof.
  split.
  - unfold EmailValidator._check_syntax.
    destruct (EmailValidator.span _ s) as [local r1] eqn:E1.
    apply span_spec in E1 as (-> & Hl & _).
    destruct r1 as [|c1 r2]; [done|].
    destruct (Ascii.eqb_spec c1 "@") as [->|Hne];
      [|by destruct c1 as [[] [] [] [] [] [] [] []]].
    destruct (EmailValidator.span _ r2) as [domain r3] eqn:E2.
    apply span_spec in E2 as (-> & Hd & _).
    destruct r3 as [|c3 r4];
      [by destruct domain|].
    destruct (Ascii.eqb_spec c3 ".") as [->|Hne];
      [|by destruct c3 as [[] [] [] [] [] [] [] []]].
    destruct (EmailValidator.span _ r4) as [tail rest] eqn:E3.
    apply span_spec in E3 as (-> & Ht & _).
    rewrite !andb_true_iff, !nonempty_string_true, orb_true_iff.
    intros (((Hln & Hdn) & Htn) & Hrest).
    exists local, domain, tail, rest. repeat split; try done.
    destruct Hrest as [H|H]; apply String.eqb_eq in H; auto.
  - intros (local & domain & tail & nl & -> & Hln & Hl & Hdn & Hd & Htn & Ht & Hnl).
    by apply check_syntax_of_parts.
Qed.

Section Disposable.

Lemma append_cons (c : ascii) (a r : string) :
  String c a +:+ r = String c (a +:+ r).
Proof. reflexivity. Qed.

Lemma append_nil_r (a : string) : a +:+ "" = a.
Proof. induction a as [|c a IH]; [reflexivity|]. by rewrite append_cons, IH. Qed.

Lemma append_assoc_char (a : string) (c : ascii) (r : string) :
  (a +:+ String c "") +:+ r = a +:+ String c r.
Proof.
  induction a as [|c' a IH]; [reflexivity|]. by rewrite !append_cons, IH.
Qed.

Lemma last_piece_no_sep sep d acc :
  has_char sep d = false -> last_piece sep d acc = acc +:+ d.
Proof.
  revert acc. induction d as [|c d IH]; intros acc; simpl.
  - intros _. by rewrite append_nil_r.
  - intros H. apply orb_false_iff in H as [-> H].
    rewrite IH by done. apply append_assoc_char.
Qed.

(** [s.split(sep)[-1]] of a text that ends in the separator and a piece
    without it is that piece. *)
Lemma last_piece_after sep a d acc :
  has_char sep d = false -> last_piece sep (a +:+ String sep d) acc = d.
Proof.
  intros Hd. revert acc. induction a as [|c a IH]; intros acc.
  - change ("" +:+ String sep d) with (String sep d). simpl.
    rewrite Ascii.eqb_refl. by rewrite last_piece_no_sep.
  - rewrite append_cons. simpl. destruct (Ascii.eqb c sep); apply IH.
Qed.

Lemma ascii_lower_is_at c : Ascii.eqb (ascii_lower c) "@" = Ascii.eqb c "@".
Proof. by destruct c as [[] [] [] [] [] [] [] []]. Qed.

Lemma lower_has_at d : has_char "@" (lower d) = has_char "@" d.
Proof.
  induction d as [|c d IH]; simpl; [done|].
  by rewrite ascii_lower_is_at, IH.
Qed.

Lemma ascii_lower_is_lf c :
  Ascii.eqb (ascii_lower c) "010" = Ascii.eqb c "010".
Proof. by destruct c as [[] [] [] [] [] [] [] []]. Qed.

Lemma lower_has_lf d : has_char "010" (lower d) = has_char "010" d.
Proof.
  induction d as [|c d IH]; simpl; [done|].
  by rewrite ascii_lower_is_lf, IH.
Qed.

Lemma has_char_app c a b :
  has_char c (a +:+ b) = (has_char c a || has_char c b)%bool.
Proof.
  induction a as [|c' a IH]; [reflexivity|].
  rewrite append_cons. simpl. by rewrite IH, orb_assoc.
Qed.

Lemma all_chars_has_char p c s :
  p c = false -> all_chars p s = true -> has_char c s = false.
Proof.
  intros Hc. induction s as [|c' s IH]; simpl; [done|].
  intros H. apply andb_true_iff in H as [Hc' Hs].
  rewrite IH by done. rewrite orb_false_r.
  destruct (Ascii.eqb_spec c' c) as [->|]; [congruence|done].
Qed.

End Disposable.

(** X2. An address on a disposable domain is rejected by [validate] whatever
    its local part, whatever the case of the letters of the domain, and
    whether or not the domain has a mail exchanger. *)
Theorem disposable_domain_rejected (x : external) (local d : string) :
  lower d ∈ EmailValidator.disposable_domains ->
  EmailValidator.validate x (PStr (local +:+ "@" +:+ d)) = Return false.
Proof.
  intros Hin.
  assert (has_char "@" d = false) as Hat.
  { rewrite <- lower_has_at. unfold EmailValidator.disposable_domains in Hin.
    repeat (apply elem_of_cons in Hin as [E|Hin]; [by rewrite E|]).
    by apply elem_of_nil in Hin. }
  unfold EmailValidator.validate.
  destruct (EmailValidator._check_syntax _); simpl; [|done].
  unfold EmailValidator._is_disposable, split_last.
  change ("@" +:+ d) with (String "@" d).
  rewrite last_piece_after by done.
  apply str_in_elem_of in Hin. by rewrite Hin.
Qed.

Lemma disposable_domain_rejected_witness :
  EmailValidator.validate (ext quiet_world) (PStr "ann@MailiNator.COM")
  = Return false.
Proof.
  apply (disposable_domain_rejected (ext quiet_world) "ann" "MailiNator.COM").
  apply (bool_decide_unpack _). by vm_compute.
Defined.

(** X3. [$] also matches before a last line feed, and the domain is cut off
    the text after the last "@" with that line feed still on it: an address
    of well-formed parts followed by a line feed passes the syntax check, is
    never found on the disposable list, whatever its domain, and [validate]
    answers what the lookup of the domain with the line feed answers. *)
Theorem line_feed_skips_disposable_check
    (x : external) (local domain tail : string) :
  local <> "" -> all_chars EmailValidator.local_char local = true ->
  domain <> "" -> all_chars EmailValidator.domain_char domain = true ->
  tail <> "" -> all_chars EmailValidator.tail_char tail = true ->
  EmailValidator.validate x
    (PStr (local +:+ "@" +:+ domain +:+ "." +:+ tail +:+ String "010" ""))
  = Return (mx_resolves x (domain +:+ "." +:+ tail +:+ String "010" "")).
Proof.
  intros Hln Hl Hdn Hd Htn Ht. unfold EmailValidator.validate.
  rewrite check_syntax_of_parts by auto. simpl.
  unfold EmailValidator._is_disposable, EmailValidator._check_mx_records,
    split_last.
  change ("@" +:+ domain +:+ "." +:+ tail +:+ String "010" "")
    with (String "@" (domain +:+ "." +:+ tail +:+ String "010" "")).
  rewrite last_piece_after.
  2:{ rewrite has_char_app, (all_chars_has_char EmailValidator.domain_char "@" domain eq_refl Hd).
      change ("." +:+ tail +:+ String "010" "")
        with (String "." (tail +:+ String "010" "")).
      simpl. by rewrite has_char_app, (all_chars_has_char EmailValidator.tail_char "@" tail eq_refl Ht). }
  destruct (str_in _ _) eqn:Ein; [|done].
  apply str_in_elem_of in Ein.
  assert (has_char "010" (lower (domain +:+ "." +:+ tail +:+ String "010" ""))
          = true) as Hlf.
  { rewrite lower_has_lf, !has_char_app. simpl. by rewrite !orb_true_r. }
  unfold EmailValidator.disposable_domains in Ein.
  repeat (apply elem_of_cons in Ein as [E|Ein];
          [by rewrite E in Hlf|]).
  by apply elem_of_nil in Ein.
Qed.

Lemma line_feed_skips_disposable_check_witness :
  EmailValidator.validate (ext quiet_world)
    (PStr ("ann" +:+ "@" +:+ "mailinator" +:+ "." +:+ "com" +:+ String "010" ""))
  = Return true.
Proof.
  exact (line_feed_skips_disposable_check (ext quiet_world)
           "ann" "mailinator" "com"
           ltac:(discriminate) eq_refl ltac:(discriminate) eq_refl
           ltac:(discriminate) eq_refl).
Defined.

(** ** CRMHandler.update_lead, further *)

Section UpdateLeadMore.
Import CRMHandler.

Lemma resolved_cells_elsewhere hs row_index updates g p :
  (forall col val i, (col, val) ∈ updates -> list_index col hs = Some i ->
                     p <> (row_index + 2, i + 1)) ->
  fold_left write_cell (resolved_cells hs row_index updates) g !! p = g !! p.
Proof.
  intros Hp. apply fold_write_cell_other. intros c Hc.
  apply elem_of_resolved_cells in Hc as (col & val & i & Hin & Hi & ->).
  simpl. intros <-. by eapply Hp.
Qed.

Lemma resolved_cells_none hs row_index updates :
  (forall col val, (col, val) ∈ updates -> list_index col hs = None) ->
  resolved_cells hs row_index updates = [] /\
  unknown_columns hs updates = updates.*1.
Proof.
  unfold resolved_cells, unknown_columns.
  induction updates as [|[col val] rest IH]; intros Hnone; [done|].
  cbn. rewrite (Hnone col val) by (by left). cbn.
  destruct IH as [-> ->]; [|done].
  intros c v Hin. apply (Hnone c v). by right.
Qed.

(** The value of a written position does not depend on what the sheet held. *)
Lemma fold_write_cell_written cells g g' p :
  Exists (writes_at p) cells ->
  fold_left write_cell cells g !! p = fold_left write_cell cells g' !! p.
Proof.
  induction cells as [|c cells IH] using rev_ind; intros Hex.
  { by apply Exists_nil in Hex. }
  rewrite !fold_left_app. simpl. unfold write_cell at 1 3.
  destruct (decide ((cell_row c, cell_col c) = p)) as [<-|Hne].
  - by rewrite !lookup_insert_eq.
  - rewrite !lookup_insert_ne by done. apply IH.
    apply Exists_app in Hex as [Hex|Hex]; [done|].
    apply Exists_cons in Hex as [Hc|Hex]; [done|].
    by apply Exists_nil in Hex.
Qed.

Lemma fold_write_cell_twice cells g :
  fold_left write_cell cells (fold_left write_cell cells g)
  = fold_left write_cell cells g.
Proof.
  apply map_eq. intros p.
  destruct (decide (Exists (writes_at p) cells)) as [Hex|Hno].
  - by apply fold_write_cell_written.
  - rewrite fold_write_cell_other; [done|].
    intros c Hc Hp. apply Hno. apply Exists_exists. by exists c.
Qed.

End UpdateLeadMore.

(** X4. [update_lead] writes nowhere but in the row of the lead and the
    columns its field names resolve to: every other cell of the sheet, the
    header row and everything the agents hold are left as they were, however
    the call ends. *)
Theorem update_lead_touches_only_its_cells
    (row_index : nat) (updates : list (string * value)) (w : world)
    (p : nat * nat) :
  (forall col val i,
      (col, val) ∈ updates -> list_index col (headers w) = Some i ->
      p <> (row_index + 2, i + 1)) ->
  grid (CRMHandler.update_lead row_index updates w).2 !! p = grid w !! p /\
  same_agents w (CRMHandler.update_lead row_index updates w).2.
Proof.
  intros Hp.
  destruct (CRMHandler.update_lead row_index updates w) as [r w'] eqn:Hu.
  apply update_lead_outcome in Hu as [Hsame Hgrid]. simpl.
  split; [|done]. destruct r as [u|e].
  - rewrite Hgrid. by apply resolved_cells_elsewhere.
  - by destruct Hgrid as [-> _].
Qed.

Lemma update_lead_touches_only_its_cells_witness :
  grid (CRMHandler.update_lead 3 [("Processing Status", PStr "Verified")]
          quiet_world).2 !! (4, 5) = None.
Proof.
  destruct (update_lead_touches_only_its_cells 3
              [("Processing Status", PStr "Verified")] quiet_world (4, 5))
    as [Hcell _].
  - intros col val i Hin _ E. discriminate E.
  - exact Hcell.
Defined.

(** X5. When none of the field names is a column, and so too for an empty
    update, [update_lead] reads the header row, logs each name, and returns
    without a second request: nothing is written, and a worksheet that would
    refuse the write is never asked. *)
Theorem update_lead_without_known_column
    (row_index : nat) (updates : list (string * value)) (w : world) :
  (forall col val, (col, val) ∈ updates -> list_index col (headers w) = None) ->
  sheet_api_error (ext w) (requests w) = None ->
  (CRMHandler.update_lead row_index updates w).1 = Return tt /\
  requests (CRMHandler.update_lead row_index updates w).2 = S (requests w) /\
  grid (CRMHandler.update_lead row_index updates w).2 = grid w /\
  log (CRMHandler.update_lead row_index updates w).2
  = log w ++ (ColumnNotFound <$> updates.*1).
Proof.
  intros Hnone Hok. rewrite update_lead_spec. simpl. rewrite Hok.
  destruct (resolved_cells_none (headers w) row_index updates Hnone)
    as [-> ->].
  done.
Qed.

Lemma update_lead_without_known_column_witness :
  (CRMHandler.update_lead 0 [("Score", PInt 7)] (refusing_world 1)).1
  = Return tt /\
  grid (CRMHandler.update_lead 0 [("Score", PInt 7)] (refusing_world 1)).2 = ∅.
Proof.
  destruct (update_lead_without_known_column 0 [("Score", PInt 7)]
              (refusing_world 1)) as (Hret & _ & Hgrid & _).
  - intros col val Hin. apply list_elem_of_singleton in Hin as [= -> ->].
    reflexivity.
  - reflexivity.
  - split; [exact Hret|exact Hgrid].
Defined.

(** X6. Repeating an update changes nothing: when a call of [update_lead]
    has returned, a second call with the same fields that returns leaves the
    sheet exactly as the first call left it. *)
Theorem update_lead_idempotent
    (row_index : nat) (updates : list (string * value)) (w w1 w2 : world) :
  CRMHandler.update_lead row_index updates w = (Return tt, w1) ->
  CRMHandler.update_lead row_index updates w1 = (Return tt, w2) ->
  grid w2 = grid w1.
Proof.
  intros H1 H2.
  apply update_lead_outcome in H1 as [(_ & Hh & _) Hg1].
  apply update_lead_outcome in H2 as [_ Hg2].
  rewrite Hg2, Hh, Hg1. apply fold_write_cell_twice.
Qed.

Lemma update_lead_idempotent_witness :
  let u := [("Processing Status", PStr "Verified"); ("Notes", PStr "ok")] in
  let w1 := (CRMHandler.update_lead 2 u quiet_world).2 in
  grid (CRMHandler.update_lead 2 u w1).2 = grid w1.
Proof.
  apply (update_lead_idempotent 2
           [("Processing Status", PStr "Verified"); ("Notes", PStr "ok")]
           quiet_world); by vm_compute.
Defined.

(** ** CRMHandler.get_new_leads and Supervisor.monitor_new_leads, further *)

Section DiscoveryMore.
Import CRMHandler.

Lemma elem_of_enumerate_from {A} (n i : nat) (x : A) (l : list A) :
  (i, x) ∈ Supervisor.enumerate_from n l <-> n <= i /\ l !! (i - n) = Some x.
Proof.
  revert n. induction l as [|y l IH]; intros n; simpl.
  - split; [intros H; by apply elem_of_nil in H|by intros [_ ?]].
  - rewrite elem_of_cons, IH. split.
    + intros [[= -> ->]|[Hle Hl]].
      * split; [lia|]. by rewrite Nat.sub_diag.
      * split; [lia|]. by replace (i - n) with (S (i - S n)) by lia.
    + intros [Hle Hl]. destruct (decide (i = n)) as [->|Hne].
      * left. rewrite Nat.sub_diag in Hl. simpl in Hl. congruence.
      * right. split; [lia|].
        by replace (i - n) with (S (i - S n)) in Hl by lia.
Qed.

Lemma elem_of_new_leads_of last_row records l :
  l ∈ Supervisor.new_leads_of last_row records <-> new_for last_row records l.
Proof.
  unfold Supervisor.new_leads_of, new_for. rewrite list_elem_of_omap. split.
  - intros ([i record] & Hin & Hl).
    apply elem_of_enumerate_from in Hin as [_ Hin].
    rewrite Nat.sub_0_r in Hin.
    destruct (Supervisor.is_new last_row i record) eqn:Enew; [|done].
    injection Hl as <-. simpl.
    unfold Supervisor.is_new in Enew.
    apply andb_true_iff in Enew as [E1 E2].
    apply Nat.ltb_lt in E1. apply negb_true_iff in E2. done.
  - intros (Hrec & Hrow & Hst). exists (lead_index l, lead_data l). split.
    + apply elem_of_enumerate_from. split; [lia|]. by rewrite Nat.sub_0_r.
    + unfold Supervisor.is_new. apply Nat.ltb_lt in Hrow.
      rewrite Hrow, Hst. simpl. by destruct l.
Qed.

Lemma new_leads_of_sorted last_row records :
  StronglySorted lt (lead_index <$> Supervisor.new_leads_of last_row records).
Proof. apply (new_leads_rising last_row 0 records). Qed.

(** The loop of [monitor_new_leads], in full. *)
Lemma assign_leads_spec ls w :
  exists w',
    Supervisor.assign_leads ls w = (Return tt, w') /\
    same_but_discovery w w' /\
    verification_queue (task_queue w') = verification_queue (task_queue w) ++ ls /\
    last_processed_row w'
    = default (last_processed_row w) (last (lead_row <$> ls)).
Proof.
  revert w. induction ls as [|l ls IH]; intros w.
  { exists w. simpl. rewrite app_nil_r. by repeat split. }
  simpl. unfold bind, modify. simpl.
  set (w1 := set_last_processed_row _ _).
  destruct (IH w1) as (w' & -> & Hsame & Hq & Hm).
  exists w'. split; [done|]. split; [|split].
  - destruct Hsame as (?&?&?&?&?&?&?&?&?). by repeat split.
  - rewrite Hq. simpl. unfold Queue.put. by rewrite <- app_assoc.
  - rewrite Hm.
    change (lead_row <$> l :: ls) with (lead_row l :: (lead_row <$> ls)).
    rewrite last_cons. unfold fmap. by destruct (last _).
Qed.

(** A call of [monitor_new_leads] that the worksheet answers. *)
Lemma monitor_new_leads_accepted w :
  sheet_api_error (ext w) (requests w) = None ->
  let ls := Supervisor.new_leads_of (last_processed_row w)
              (sheet_records (ext w) (requests w)) in
  exists w',
    Supervisor.monitor_new_leads w = (Return tt, w') /\
    ext w' = ext w /\ requests w' = S (requests w) /\
    grid w' = grid w /\ log w' = log w /\
    outreach_queue (task_queue w') = outreach_queue (task_queue w) /\
    retry_queue w' = retry_queue w /\
    verification_queue (task_queue w') = verification_queue (task_queue w) ++ ls /\
    last_processed_row w' = default (last_processed_row w) (last (lead_row <$> ls)).
Proof.
  intros Hok. simpl.
  unfold Supervisor.monitor_new_leads, try_except, Supervisor.get_new_leads,
    get_all_records, bind, sheet_request, gets, ret.
  rewrite Hok. simpl.
  destruct (assign_leads_spec
              (Supervisor.new_leads_of (last_processed_row w)
                 (sheet_records (ext w) (requests w)))
              (set_requests (S (requests w)) w))
    as (w' & -> & (?&?&?&?&?&?&?&?&?) & Hq & Hm).
  exists w'. by repeat split.
Qed.

Lemma sorted_lt_NoDup (l : list nat) : StronglySorted lt l -> NoDup l.
Proof.
  induction 1 as [|x l Hs IH Hx]; constructor; [|done].
  intros Hin. rewrite Forall_forall in Hx. specialize (Hx x Hin). lia.
Qed.

Lemma rows_below_last ls m :
  StronglySorted lt (lead_index <$> ls) ->
  Forall (fun l => m < lead_row l) ls ->
  m <= default m (last (lead_row <$> ls)) /\
  Forall (fun l => lead_row l <= default m (last (lead_row <$> ls))) ls.
Proof.
  revert m. induction ls as [|l ls IH]; intros m Hsorted Hpast.
  { simpl. split; [lia|constructor]. }
  rewrite fmap_cons in Hsorted.
  apply StronglySorted_inv in Hsorted as [Hsorted Hl].
  rewrite Forall_fmap in Hl.
  apply Forall_cons in Hpast as [Hm Hpast].
  change (lead_row <$> l :: ls) with (lead_row l :: (lead_row <$> ls)).
  rewrite last_cons.
  destruct (IH (lead_row l)) as [Hle Hall]; [done| |].
  { eapply Forall_impl; [exact Hl|]. simpl. unfold lead_row. intros l'. lia. }
  unfold fmap in *. destruct (last _) as [k|]; simpl in *.
  - split; [lia|]. by constructor.
  - split; [lia|]. by constructor.
Qed.

(** Past the last lead a call has found, the same records hold nothing new. *)
Lemma nothing_new_past_the_last last_row records :
  Supervisor.new_leads_of
    (default last_row
       (last (lead_row <$> Supervisor.new_leads_of last_row records)))
    records = [].
Proof.
  set (ls := Supervisor.new_leads_of last_row records).
  set (m := default last_row (last (lead_row <$> ls))).
  destruct (rows_below_last ls last_row) as [Hm Hall].
  { apply new_leads_of_sorted. }
  { destruct (new_leads_rising last_row 0 records) as [_ Hpast].
    eapply Forall_impl; [exact Hpast|]. simpl. by intros l [_ ?]. }
  fold m in Hm, Hall.
  destruct (Supervisor.new_leads_of m records) as [|l rest] eqn:E; [done|].
  assert (l ∈ Supervisor.new_leads_of m records) as Hl by (rewrite E; by left).
  apply elem_of_new_leads_of in Hl as (Hrec & Hrow & Hst).
  assert (l ∈ ls) as Hin.
  { apply elem_of_new_leads_of. split; [done|]. split; [lia|done]. }
  rewrite Forall_forall in Hall. specialize (Hall l Hin).
  unfold lead_row in Hall. lia.
Qed.

End DiscoveryMore.

(** X7. When the worksheet answers, [get_new_leads] returns, in rising index
    order, exactly the leads whose record stands at their index in the sheet,
    lies past the mark and has no truthy "Processing Status"; it changes
    nothing but the count of requests.  When the worksheet refuses, the
    exception is not caught here. *)
Theorem get_new_leads_exactly (w : world) :
  match sheet_api_error (ext w) (requests w) with
  | Some msg =>
      (Supervisor.get_new_leads w).1 = Raise (Exn APIError msg)
  | None =>
      exists ls,
        Supervisor.get_new_leads w
        = (Return ls, set_requests (S (requests w)) w) /\
        StronglySorted lt (lead_index <$> ls) /\
        forall l, l ∈ ls <->
                  new_for (last_processed_row w)
                          (sheet_records (ext w) (requests w)) l
  end.
Proof.
  unfold Supervisor.get_new_leads, CRMHandler.get_all_records, bind,
    CRMHandler.sheet_request, gets, ret.
  destruct (sheet_api_error (ext w) (requests w)); simpl; [done|].
  eexists. split; [reflexivity|]. split.
  - apply new_leads_of_sorted.
  - intros l. apply elem_of_new_leads_of.
Qed.

(** X8. [monitor_new_leads] never raises and never touches the sheet, the
    outreach channel or the retry queue; when the worksheet refuses its
    request it logs the error, puts nothing on the verification channel and
    leaves the mark where it was. *)
Theorem monitor_new_leads_never_raises (w : world) :
  (Supervisor.monitor_new_leads w).1 = Return tt /\
  grid (Supervisor.monitor_new_leads w).2 = grid w /\
  outreach_queue (task_queue (Supervisor.monitor_new_leads w).2)
  = outreach_queue (task_queue w) /\
  retry_queue (Supervisor.monitor_new_leads w).2 = retry_queue w /\
  (forall msg,
      sheet_api_error (ext w) (requests w) = Some msg ->
      task_queue (Supervisor.monitor_new_leads w).2 = task_queue w /\
      last_processed_row (Supervisor.monitor_new_leads w).2
      = last_processed_row w /\
      log (Supervisor.monitor_new_leads w).2
      = log w ++ [ErrorMonitoringLeads (Exn APIError msg)]).
Proof.
  destruct (sheet_api_error (ext w) (requests w)) as [msg|] eqn:E.
  - unfold Supervisor.monitor_new_leads, try_except, Supervisor.get_new_leads,
      CRMHandler.get_all_records, bind, CRMHandler.sheet_request, gets, ret.
    rewrite E. simpl. do 4 (split; [done|]). by intros msg' [= <-].
  - destruct (monitor_new_leads_accepted w E)
      as (w' & -> & _ & _ & Hg & _ & Ho & Hr & _).
    simpl. do 4 (split; [done|]). intros msg Hmsg.
    discriminate Hmsg.
Qed.

(** X9. When the worksheet answers, [monitor_new_leads] puts on the
    verification channel every lead that is new for the mark and no other,
    each once and in sheet order, and moves the mark to the row of the last
    of them; with nothing new the mark stays. *)
Theorem monitor_enqueues_every_new_lead (w : world) :
  sheet_api_error (ext w) (requests w) = None ->
  let w' := (Supervisor.monitor_new_leads w).2 in
  let records := sheet_records (ext w) (requests w) in
  (forall l, l ∈ enqueued_since w w' <-> new_for (last_processed_row w) records l) /\
  NoDup (enqueued_since w w') /\
  StronglySorted lt (lead_index <$> enqueued_since w w') /\
  last_processed_row w'
  = default (last_processed_row w) (last (lead_row <$> enqueued_since w w')).
Proof.
  intros Hok. simpl.
  destruct (monitor_new_leads_accepted w Hok)
    as (w' & -> & _ & _ & _ & _ & _ & _ & Hq & Hm).
  simpl. unfold enqueued_since. rewrite Hq, drop_app_length.
  split; [|split; [|split]]; try done.
  - intros l. apply elem_of_new_leads_of.
  - apply (NoDup_fmap_1 lead_index). apply sorted_lt_NoDup.
    apply new_leads_of_sorted.
  - apply new_leads_of_sorted.
Qed.

Lemma monitor_enqueues_every_new_lead_witness :
  lead_index <$> enqueued_since steady_sheet_world
                   (Supervisor.monitor_new_leads steady_sheet_world).2
  = [0; 2; 3] /\
  last_processed_row (Supervisor.monitor_new_leads steady_sheet_world).2 = 5.
Proof.
  destruct (monitor_enqueues_every_new_lead steady_sheet_world eq_refl)
    as (_ & _ & _ & Hmark).
  split; [by vm_compute|]. rewrite Hmark. by vm_compute.
Defined.

(** X10. A second call of [monitor_new_leads] on a sheet that has not
    changed puts nothing on the verification channel and leaves the mark
    where the first call put it, although no lead of the first call has been
    processed yet. *)
Theorem second_discovery_finds_nothing (w : world) :
  sheet_api_error (ext w) (requests w) = None ->
  sheet_api_error (ext w) (S (requests w)) = None ->
  sheet_records (ext w) (S (requests w)) = sheet_records (ext w) (requests w) ->
  let w1 := (Supervisor.monitor_new_leads w).2 in
  let w2 := (Supervisor.monitor_new_leads w1).2 in
  task_queue w2 = task_queue w1 /\
  last_processed_row w2 = last_processed_row w1.
Proof.
  intros Hok0 Hok1 Hsame. simpl.
  destruct (monitor_new_leads_accepted w Hok0)
    as (w1 & -> & Hx & Hr & _ & _ & _ & _ & _ & Hm).
  simpl.
  assert (sheet_api_error (ext w1) (requests w1) = None) as Hok
    by (by rewrite Hx, Hr).
  destruct (monitor_new_leads_accepted w1 Hok)
    as (w2 & -> & _ & _ & _ & _ & Ho & _ & Hq & Hm2).
  simpl. rewrite Hx, Hr, Hsame, Hm in Hq, Hm2.
  rewrite nothing_new_past_the_last in Hq, Hm2.
  rewrite app_nil_r in Hq. simpl in Hm2. rewrite <- Hm in Hm2.
  split; [|done].
  destruct (task_queue w2), (task_queue w1). simpl in *. congruence.
Qed.

Lemma second_discovery_finds_nothing_witness :
  let w1 := (Supervisor.monitor_new_leads steady_sheet_world).2 in
  let w2 := (Supervisor.monitor_new_leads w1).2 in
  length (verification_queue (task_queue w1)) = 3 /\
  task_queue w2 = task_queue w1 /\
  last_processed_row w2 = last_processed_row w1.
Proof.
  split; [by vm_compute|].
  exact (second_discovery_finds_nothing steady_sheet_world
           eq_refl eq_refl eq_refl).
Defined.

(** ** AgentA.process_lead, further *)

Section VerificationMore.
Import CRMHandler.

Lemma same_but_row_refl i w : same_but_row i w w.
Proof. by repeat split. Qed.

Lemma same_but_row_trans i w1 w2 w3 :
  same_but_row i w1 w2 -> same_but_row i w2 w3 -> same_but_row i w1 w3.
Proof.
  intros (?&?&?&?&?&?&Hg1) (?&?&?&?&?&?&Hg2).
  repeat split; try congruence.
  intros r c Hr. rewrite Hg2, Hg1; done.
Qed.

(** [update_lead] stays in its row, however it ends, and raises nothing but
    what the worksheet raises. *)
Lemma update_lead_row i updates w r w' :
  update_lead i updates w = (r, w') ->
  same_but_row i w w' /\
  task_queue w' = task_queue w /\
  match r with Return _ => True | Raise e => exn_kind e = APIError end.
Proof.
  intros Hu. apply update_lead_outcome in Hu as [(?&?&Hq&?&?&?&?) Hg].
  split; [|split; [done|]].
  - repeat split; try done; try by rewrite Hq.
    intros r0 c Hr. destruct r as [u|e].
    + rewrite Hg. apply fold_write_cell_other. intros c0 Hc0.
      apply elem_of_resolved_cells in Hc0 as (?&?&?&_&_&->). simpl.
      intros [= E _]. lia.
    + by destruct Hg as [-> _].
  - destruct r; [done|]. by destruct Hg.
Qed.

(** With a worksheet that accepts every request, [update_lead] returns. *)
Lemma update_lead_accepting i updates w :
  accepting w ->
  exists w',
    update_lead i updates w = (Return tt, w') /\ accepting w' /\
    log w' = log w ++ (ColumnNotFound <$> unknown_columns (headers w) updates).
Proof.
  intros Hok. rewrite update_lead_spec. simpl. rewrite !Hok.
  destruct (resolved_cells _ _ _); eexists; (split; [reflexivity|]); by split.
Qed.

(** The [try] of [process_lead] stays in the row of the lead. *)
Lemma process_lead_try_row l w r w' :
  AgentA.process_lead_try l w = (r, w') ->
  same_but_row (lead_index l) w w'.
Proof.
  rewrite process_lead_try_spec.
  destruct (update_lead _ _ w) as [[u|e1] w1] eqn:E1;
    apply update_lead_row in E1 as (Hs1 & _ & _).
  2:{ by intros [= <- <-]. }
  destruct (computed_status _ _) as [status|e2].
  2:{ by intros [= <- <-]. }
  destruct (update_lead _ _ (set_clock_reads _ _)) as [[u3|e3] w3] eqn:E3;
    apply update_lead_row in E3 as (Hs3 & _ & _).
  2:{ intros [= <- <-]. eapply same_but_row_trans; [exact Hs1|].
      eapply same_but_row_trans; [|exact Hs3]. by repeat split. }
  intros [= <- <-].
  eapply same_but_row_trans; [exact Hs1|].
  eapply same_but_row_trans; [|destruct (String.eqb status "Y"); by repeat split].
  eapply same_but_row_trans; [|exact Hs3]. by repeat split.
Qed.

(** What the handler of [process_lead] does after the checks have raised,
    when the worksheet accepts every request. *)
Lemma process_lead_checks_raise l w e :
  accepting w ->
  computed_status (ext w) (lead_data l) = Raise e ->
  (AgentA.process_lead l w).1 = Return tt /\
  written (AgentA.error_updates e) l (headers w) (AgentA.process_lead l w).2 /\
  outreach_queue (task_queue (AgentA.process_lead l w).2)
  = outreach_queue (task_queue w).
Proof.
  intros Hok He. unfold AgentA.process_lead, try_except.
  rewrite process_lead_try_spec.
  destruct (update_lead_accepting (lead_index l)
              [("Processing Status", PStr "Verifying")] w Hok)
    as (w1 & E1 & Hok1 & _).
  rewrite E1.
  pose proof E1 as Hf. apply update_lead_outcome in Hf as [(Hx&Hh&Hq&_) _].
  rewrite Hx, He.
  unfold AgentA.process_lead_except, bind, log_error, modify.
  set (w2 := set_log _ w1).
  destruct (update_lead_accepting (lead_index l) (AgentA.error_updates e) w2 Hok1)
    as (w3 & E3 & _ & _).
  rewrite E3. simpl. split; [done|]. split.
  - rewrite <- Hh. apply (update_lead_written l (headers w1)) in E3;
      [done|apply error_updates_NoDup|done].
  - apply update_lead_outcome in E3 as [(_&_&->&_) _]. simpl. by rewrite Hq.
Qed.

End VerificationMore.

(** X11. [AgentA.process_lead] never touches the verification channel, the
    retry queue, the outbox, the supervisor's mark or the header row, and it
    changes no cell outside the row of its lead; the only exception that can
    leave it is one the worksheet raised on the update of the handler. *)
Theorem verification_stays_in_its_row (l : lead) (w : world) :
  same_but_row (lead_index l) w (AgentA.process_lead l w).2 /\
  (forall e, (AgentA.process_lead l w).1 = Raise e -> exn_kind e = APIError).
Proof.
  unfold AgentA.process_lead, try_except.
  destruct (AgentA.process_lead_try l w) as [[u|e] w1] eqn:Htry;
    apply process_lead_try_row in Htry.
  { simpl. split; [done|]. intros e [=]. }
  unfold AgentA.process_lead_except, bind, log_error, modify.
  set (w2 := set_log _ w1).
  destruct (CRMHandler.update_lead _ _ w2) as [r w3] eqn:Hu.
  apply update_lead_row in Hu as (Hs & _ & Hr). simpl. split.
  - eapply same_but_row_trans; [exact Htry|].
    eapply same_but_row_trans; [|exact Hs]. by repeat split.
  - intros e' ->. exact Hr.
Qed.

(** X12. A lead whose record has no "Email" key is never verified: with a
    worksheet that accepts every request, [AgentA.process_lead] returns, the
    row of the lead holds processingStatus "Error" and the note
    "Verification failed: 'Email'" in the columns the sheet has, and nothing
    is put on the outreach channel. *)
Theorem lead_without_email_is_an_error (l : lead) (w : world) :
  accepting w ->
  lead_data l !! "Email" = None ->
  (AgentA.process_lead l w).1 = Return tt /\
  written [("Processing Status", PStr "Error");
           ("Notes", PStr "Verification failed: 'Email'")]
          l (headers w) (AgentA.process_lead l w).2 /\
  outreach_queue (task_queue (AgentA.process_lead l w).2)
  = outreach_queue (task_queue w).
Proof.
  intros Hok Hno.
  apply (process_lead_checks_raise l w (Exn KeyError "'Email'") Hok).
  unfold computed_status, CRMHandler.subscript. by rewrite Hno.
Qed.

Lemma lead_without_email_is_an_error_witness :
  cell_at (AgentA.process_lead no_email_lead quiet_world).2 0 4
  = Some (PStr "Error") /\
  cell_at (AgentA.process_lead no_email_lead quiet_world).2 0 9
  = Some (PStr "Verification failed: 'Email'").
Proof.
  destruct (lead_without_email_is_an_error no_email_lead quiet_world)
    as (_ & Hw & _).
  - intros n. reflexivity.
  - reflexivity.
  - split.
    + apply (Hw "Processing Status"); [by left|reflexivity].
    + apply (Hw "Notes"); [right; by left|reflexivity].
Defined.



(** The same lead with a company cell that reads 42: the note names [int]. *)
Example integer_company_is_an_error :
  cell_at (AgentA.process_lead numeric_company_lead quiet_world).2 0 9
  = Some (PStr "Verification failed: 'int' object has no attribute 'lower'").
Proof. by vm_compute. Qed.

(** ** AgentB, further *)

Section OutreachMore.
Import CRMHandler.

Lemma outside_row_kept_trans i w1 w2 w3 :
  outside_row_kept i w1 w2 -> outside_row_kept i w2 w3 ->
  outside_row_kept i w1 w3.
Proof.
  intros (?&?&?&?&Hg1) (?&?&?&?&Hg2). repeat split; try congruence.
  intros r c Hr. rewrite Hg2, Hg1; done.
Qed.

Lemma update_lead_outside_row i updates w r w' :
  update_lead i updates w = (r, w') ->
  outside_row_kept i w w' /\ outbox w' = outbox w /\
  retry_queue w' = retry_queue w /\
  match r with Return _ => True | Raise e => exn_kind e = APIError end.
Proof.
  intros Hu. apply update_lead_row in Hu as ((?&?&?&?&?&?&?) & ? & ?).
  by repeat split.
Qed.

Lemma completed_updates_NoDup now : NoDup (AgentB.completed_updates now).*1.
Proof. apply (bool_decide_unpack _). by vm_compute. Qed.

Lemma outreach_error_updates_NoDup e : NoDup (AgentB.error_updates e).*1.
Proof. apply (bool_decide_unpack _). by vm_compute. Qed.

(** [AgentB.process_lead] stays in the row of its lead and lets out nothing
    but what the worksheet raised on the update of the handler. *)
Lemma outreach_process_lead_row l w :
  outside_row_kept (lead_index l) w (AgentB.process_lead l w).2 /\
  (forall e, (AgentB.process_lead l w).1 = Raise e -> exn_kind e = APIError).
Proof.
  assert (forall e w1, outside_row_kept (lead_index l) w w1 ->
            outside_row_kept (lead_index l) w (AgentB.process_lead_except l e w1).2 /\
            (forall e', (AgentB.process_lead_except l e w1).1 = Raise e' ->
                        exn_kind e' = APIError)) as Hexcept.
  { intros e w1 Hw1. unfold AgentB.process_lead_except, bind, log_error, modify.
    set (w2 := set_log _ w1).
    destruct (update_lead _ _ w2) as [r w3] eqn:Hu.
    apply update_lead_outside_row in Hu as (Hs & _ & _ & Hr). simpl. split.
    - eapply outside_row_kept_trans; [exact Hw1|].
      eapply outside_row_kept_trans; [|exact Hs]. by repeat split.
    - intros e' ->. exact Hr. }
  unfold AgentB.process_lead, try_except. rewrite outreach_try_spec.
  destruct (update_lead _ _ w) as [[u|e] w1] eqn:E1;
    apply update_lead_outside_row in E1 as (Hs1 & _ & _ & _).
  2:{ by apply Hexcept. }
  rewrite send_email_spec.
  destruct (lead_data l !! "Email") as [to|].
  2:{ by apply Hexcept. }
  destruct (smtp_delivers _ _).
  - destruct (update_lead _ _ _) as [[u3|e3] w3] eqn:E3;
      apply update_lead_outside_row in E3 as (Hs3 & _ & _ & _).
    + simpl. split; [|by intros e [=]].
      eapply outside_row_kept_trans; [exact Hs1|].
      eapply outside_row_kept_trans; [|exact Hs3]. by repeat split.
    + apply Hexcept.
      eapply outside_row_kept_trans; [exact Hs1|].
      eapply outside_row_kept_trans; [|exact Hs3]. by repeat split.
  - simpl. split; [|by intros e [=]].
    eapply outside_row_kept_trans; [exact Hs1|]. by repeat split.
Qed.

(** A name that an update does not carry keeps its cell. *)
Lemma update_lead_other_column i updates w w' col k :
  update_lead i updates w = (Return tt, w') ->
  col ∉ updates.*1 -> list_index col (headers w) = Some k ->
  cell_at w' i k = cell_at w i k.
Proof.
  intros Hu Hcol Hk. apply update_lead_outcome in Hu as [_ Hg].
  unfold cell_at. rewrite Hg. apply fold_write_cell_other. intros c Hc.
  apply elem_of_resolved_cells in Hc as (col' & val & j & Hin & Hj & ->).
  simpl. intros [= E]. assert (j = k) as -> by lia.
  apply Hcol. rewrite (list_index_inj _ _ _ _ Hk Hj).
  apply list_elem_of_fmap. by exists (col', val).
Qed.

(** A first send that is delivered. *)
Lemma outreach_delivered l w to :
  accepting w ->
  lead_data l !! "Email" = Some to ->
  smtp_delivers (ext w) (length (outbox w)) = true ->
  exists w',
    AgentB.process_lead l w = (Return tt, w') /\
    written (AgentB.completed_updates (wall_clock (ext w) (clock_reads w)))
            l (headers w) w' /\
    outbox w' = outbox w ++ [lead_data l] /\
    retry_queue w' = retry_queue w /\ accepting w' /\
    (forall col k,
        col ∉ ["Processing Status"; "Response Status"; "Outreach Date"] ->
        list_index col (headers w) = Some k ->
        cell_at w' (lead_index l) k = cell_at w (lead_index l) k).
Proof.
  intros Hok Hto Hd. unfold AgentB.process_lead, try_except.
  rewrite outreach_try_spec.
  destruct (update_lead_accepting (lead_index l)
              [("Processing Status", PStr "Outreach")] w Hok)
    as (w1 & E1 & Hok1 & _).
  rewrite E1. pose proof E1 as K1.
  apply update_lead_outcome in E1 as [(Hx&Hh&_&Hr&Ho&Hc&_) _].
  rewrite send_email_spec, Hto, Hx, Ho, Hd. simpl. rewrite Hx, Hc.
  set (w2 := set_clock_reads _ _).
  destruct (update_lead_accepting (lead_index l)
              (AgentB.completed_updates (wall_clock (ext w) (clock_reads w)))
              w2 Hok1) as (w3 & E3 & Hok3 & _).
  rewrite E3. exists w3. split; [done|].
  pose proof E3 as Hw. pose proof E3 as K3.
  apply (update_lead_written l (headers w)) in Hw;
    [|apply completed_updates_NoDup|by rewrite <- Hh].
  apply update_lead_outcome in E3 as [(_&_&_&Hr3&Ho3&_) _].
  simpl in *. do 4 (split; [done || congruence|]).
  intros col k Hcol Hk.
  rewrite (update_lead_other_column _ _ _ _ col k K3);
    [| |subst w2; simpl; by rewrite Hh].
  - unfold cell_at. simpl.
    apply (update_lead_other_column _ _ _ _ col k K1); [|done].
    simpl. intros Hin. apply Hcol.
    apply list_elem_of_singleton in Hin as ->. by left.
  - exact Hcol.
Qed.

(** The retry loop raises nothing but the [KeyError] of a record without an
    address. *)
Lemma process_retry_queue_raises w e :
  (AgentB.process_retry_queue w).1 = Raise e -> e = Exn KeyError "'Email'".
Proof.
  revert w. apply (retry_loop_ind (fun w r => r.1 = Raise e ->
    e = Exn KeyError "'Email'")).
  - intros w _ [=].
  - intros w l a rest w1 _ _ IH. exact IH.
  - intros w l a rest e' w1 _ Hs [= ->]. revert Hs.
    unfold AgentB.retry_entry. destruct (Nat.ltb a 3); [|by intros [=]].
    unfold bind at 1. rewrite send_email_spec.
    destruct (lead_data l !! "Email"); [|by intros [= <- _]].
    destruct (smtp_delivers _ _); by intros [=].
Qed.

(** Sends made and sends left never add up to more than before the loop. *)
Lemma process_retry_queue_budget w :
  length (outbox (AgentB.process_retry_queue w).2)
  + sends_left (retry_queue (AgentB.process_retry_queue w).2)
  <= length (outbox w) + sends_left (retry_queue w).
Proof.
  revert w. apply (retry_loop_ind (fun w r =>
    length (outbox r.2) + sends_left (retry_queue r.2)
    <= length (outbox w) + sends_left (retry_queue w))).
  - done.
  - intros w l a rest w1 Hq Hs IH. rewrite Hq.
    unfold sends_left in *. simpl.
    apply retry_entry_outcome in Hs
      as [_ [(_&_&Ho&Hr)|[(_&_&[? [=]]&_)|[(Ha&_&_&_&Ho&Hr)|(Ha&_&_&_&Ho&Hr)]]]];
      simpl in Ho, Hr; rewrite Hr, Ho in IH.
    + lia.
    + rewrite length_app in IH. simpl in IH. lia.
    + rewrite length_app, sum_list_with_app in IH. simpl in IH. lia.
  - intros w l a rest e w1 Hq Hs. rewrite Hq.
    unfold sends_left. simpl.
    apply retry_entry_outcome in Hs
      as [_ [(_&[=]&_)|[(_&_&_&Ho&Hr)|[(_&_&_&[=]&_)|(_&_&_&[=]&_)]]]].
    simpl in *. rewrite Ho, Hr. lia.
Qed.

End OutreachMore.

(** X14. A first send that is delivered completes the lead: with a worksheet
    that accepts every request, [AgentB.process_lead] returns, the row of
    the lead holds processingStatus "Completed", responseStatus "Pending
    Response" and the outreach date in the columns the sheet has, the lead
    has been sent once and nothing is put on the retry queue. *)
Theorem delivered_lead_is_completed (l : lead) (w : world) (to : value) :
  accepting w ->
  lead_data l !! "Email" = Some to ->
  smtp_delivers (ext w) (length (outbox w)) = true ->
  (AgentB.process_lead l w).1 = Return tt /\
  written [("Processing Status", PStr "Completed");
           ("Response Status", PStr "Pending Response");
           ("Outreach Date", PStr (wall_clock (ext w) (clock_reads w)))]
          l (headers w) (AgentB.process_lead l w).2 /\
  outbox (AgentB.process_lead l w).2 = outbox w ++ [lead_data l] /\
  retry_queue (AgentB.process_lead l w).2 = retry_queue w.
Proof.
  intros Hok Hto Hd.
  destruct (outreach_delivered l w to Hok Hto Hd) as (w' & -> & Hw & Ho & Hr & _).
  done.
Qed.

Lemma delivered_lead_is_completed_witness :
  cell_at (AgentB.process_lead acme_lead quiet_world).2 0 4
  = Some (PStr "Completed") /\
  cell_at (AgentB.process_lead acme_lead quiet_world).2 0 7
  = Some (PStr "Pending Response").
Proof.
  destruct (delivered_lead_is_completed acme_lead quiet_world
              (PStr "ann@acme.org")) as (_ & Hw & _).
  - intros n. reflexivity.
  - reflexivity.
  - reflexivity.
  - split.
    + apply (Hw "Processing Status"); [by left|reflexivity].
    + apply (Hw "Response Status"); [right; by left|reflexivity].
Defined.

(** X15. A lead whose record has no "Email" key is never sent: with a
    worksheet that accepts every request, [AgentB.process_lead] returns
    with processingStatus "Error" and the note "Outreach failed: 'Email'" in
    the row of the lead, an outbox and a retry queue as they were. *)
Theorem outreach_without_email_is_an_error (l : lead) (w : world) :
  accepting w ->
  lead_data l !! "Email" = None ->
  (AgentB.process_lead l w).1 = Return tt /\
  written [("Processing Status", PStr "Error");
           ("Notes", PStr "Outreach failed: 'Email'")]
          l (headers w) (AgentB.process_lead l w).2 /\
  outbox (AgentB.process_lead l w).2 = outbox w /\
  retry_queue (AgentB.process_lead l w).2 = retry_queue w.
Proof.
  intros Hok Hno. unfold AgentB.process_lead, try_except.
  rewrite outreach_try_spec.
  destruct (update_lead_accepting (lead_index l)
              [("Processing Status", PStr "Outreach")] w Hok)
    as (w1 & E1 & Hok1 & _).
  rewrite E1.
  apply update_lead_outcome in E1 as [(Hx&Hh&_&Hr&Ho&_) _].
  rewrite send_email_spec, Hno.
  unfold AgentB.process_lead_except, bind, log_error, modify.
  set (w2 := set_log _ w1).
  destruct (update_lead_accepting (lead_index l)
              (AgentB.error_updates (Exn KeyError "'Email'")) w2 Hok1)
    as (w3 & E3 & _ & _).
  rewrite E3. simpl. split; [done|].
  pose proof E3 as Hw.
  apply (update_lead_written l (headers w)) in Hw;
    [|apply outreach_error_updates_NoDup|by rewrite <- Hh].
  apply update_lead_outcome in E3 as [(_&_&_&Hr3&Ho3&_) _].
  simpl in *. repeat split; try done; congruence.
Qed.

Lemma outreach_without_email_is_an_error_witness :
  cell_at (AgentB.process_lead no_email_lead quiet_world).2 0 9
  = Some (PStr "Outreach failed: 'Email'") /\
  outbox (AgentB.process_lead no_email_lead quiet_world).2 = [].
Proof.
  destruct (outreach_without_email_is_an_error no_email_lead quiet_world)
    as (_ & Hw & Ho & _).
  - intros n. reflexivity.
  - reflexivity.
  - split; [|exact Ho].
    apply (Hw "Notes"); [right; by left|reflexivity].
Defined.

(** X16. [AgentB.process_lead] never touches either channel, the
    supervisor's mark or the header row, changes no cell outside the row of
    its lead, sends at most once, and lets out no exception but one the
    worksheet raised on the update of the handler. *)
Theorem outreach_stays_in_its_row (l : lead) (w : world) :
  outside_row_kept (lead_index l) w (AgentB.process_lead l w).2 /\
  (outbox (AgentB.process_lead l w).2 = outbox w \/
   outbox (AgentB.process_lead l w).2 = outbox w ++ [lead_data l]) /\
  (forall e, (AgentB.process_lead l w).1 = Raise e -> exn_kind e = APIError).
Proof.
  destruct (outreach_process_lead_row l w) as [Hrow Hraise].
  split; [done|]. split; [|done].
  destruct (outreach_process_lead_outcome l w)
    as [[Ho _]|[[Ho _]|(Ho & _)]]; auto.
Qed.

(** X17. For every retry queue, the sends of one call of
    [process_retry_queue] and the attempts its entries have left afterwards
    add up to no more than the attempts they had left before, so an entry
    with three attempts is never sent again; the call touches neither the
    sheet nor the channels, and the only exception it raises is the
    [KeyError] of a record without an "Email" key. *)
Theorem retry_loop_spends_what_is_left (w : world) :
  length (outbox (AgentB.process_retry_queue w).2)
  + sends_left (retry_queue (AgentB.process_retry_queue w).2)
  <= length (outbox w) + sends_left (retry_queue w) /\
  grid (AgentB.process_retry_queue w).2 = grid w /\
  task_queue (AgentB.process_retry_queue w).2 = task_queue w /\
  (forall e, (AgentB.process_retry_queue w).1 = Raise e ->
             e = Exn KeyError "'Email'").
Proof.
  split; [apply process_retry_queue_budget|].
  destruct (process_retry_queue_frame w) as (_ & _ & Hg & Hq).
  split; [done|]. split; [done|].
  intros e. apply process_retry_queue_raises.
Qed.

(** ** The worker loops *)

Section LoopsFacts.
Import CRMHandler.

Lemma waiting_once_has_email w :
  waiting_once w ->
  Forall (fun entry => is_Some (lead_data entry.1 !! "Email")) (retry_queue w).
Proof.
  intros [->|(l & -> & Hl)]; [constructor|]. by apply Forall_singleton.
Qed.

(** One pass of [AgentB]: it ends, it does not raise the send budget, and
    after a pass that returns a retry queue that was in order is at most one
    entry long. *)
Lemma agent_b_pass_step w :
  exists r w',
    Loops.agent_b_pass w = Some (r, w') /\
    send_budget w' <= send_budget w /\
    (waiting_once w -> r = Return tt -> waiting_once w') /\
    (waiting_once w -> forall e, r = Raise e -> exn_kind e = APIError).
Proof.
  unfold Loops.agent_b_pass.
  pose proof (process_retry_queue_budget w) as Hb.
  destruct (process_retry_queue_frame w) as (_ & _ & _ & Hq).
  pose proof (process_retry_queue_drains w) as Hdrain.
  pose proof (process_retry_queue_returns w) as Hret.
  destruct (AgentB.process_retry_queue w) as [[u|e] w1]; [destruct u|];
    simpl in *.
  2:{ exists (Raise e), w1. split; [done|]. split.
      { unfold send_budget. rewrite Hq. lia. }
      split; [by intros _ [=]|].
      intros Hw. apply waiting_once_has_email, Hret in Hw. discriminate Hw. }
  specialize (Hdrain eq_refl).
  rewrite get_outreach_task_answers.
  destruct (outreach_queue (task_queue w1)) as [|l rest] eqn:Eo.
  { eexists _, _. split; [reflexivity|].
    split; [|split; [intros _ _; by left|by intros _ e [=]]].
    unfold send_budget. simpl. rewrite Eo, Hdrain. rewrite Hdrain in Hb.
    unfold sends_left in *. simpl in *. lia. }
  set (w2 := set_task_queue (MkTaskQueue (verification_queue (task_queue w1)) rest) w1).
  destruct (outreach_process_lead_row l w2) as [(_ & _ & Htq & _) Hraise].
  pose proof (outreach_process_lead_outcome l w2) as Hout.
  destruct (AgentB.process_lead l w2) as [r w3]. simpl in *.
  exists r, w3. split; [done|]. rewrite Hdrain in Hb, Hout. split; [|split].
  - unfold send_budget. rewrite Htq. simpl.
    rewrite <- Hq, Eo. simpl.
    unfold sends_left in *. simpl in *.
    destruct Hout as [[Ho Hr]|[[Ho Hr]|(Ho & Hr & _)]]; rewrite Ho, Hr;
      simpl; rewrite ?length_app; simpl; lia.
  - intros _ _. unfold waiting_once.
    destruct Hout as [[_ Hr]|[[_ Hr]|(_ & Hr & Hl)]]; rewrite Hr;
      [by left|by left|].
    right. by exists l.
  - intros _. exact Hraise.
Qed.

Lemma agent_b_passes_run n w :
  exists r w',
    Loops.agent_b_passes n w = Some (r, w') /\
    send_budget w' <= send_budget w /\
    (waiting_once w -> r = Return tt -> waiting_once w') /\
    (waiting_once w -> forall e, r = Raise e -> exn_kind e = APIError).
Proof.
  revert w. induction n as [|n IH]; intros w; simpl.
  { exists (Return tt), w. split; [done|]. split; [lia|].
    split; [done|]. by intros _ e [=]. }
  destruct (agent_b_pass_step w) as (r & w1 & -> & Hb & Hinv & Hraise).
  destruct r as [[]|e].
  - destruct (IH w1) as (r' & w' & -> & Hb' & Hinv' & Hraise').
    exists r', w'. split; [done|]. split; [lia|]. split.
    + intros Hw. apply Hinv'. by apply Hinv.
    + intros Hw. apply Hraise'. by apply Hinv.
  - exists (Raise e), w1. split; [done|]. split; [done|]. by split.
Qed.

End LoopsFacts.

(** X18. Passes of the loop of [AgentB] never block on the outreach channel.
    Started with an empty retry queue, every pass that returns leaves the
    retry queue empty or holding the one lead just tried, with one attempt,
    so [process_lead] is always entered with an empty retry queue; and no
    [KeyError] ever leaves the retry loop: the only exception that can stop
    the worker is one the worksheet raised on the update of a handler. *)
Theorem outreach_loop_keeps_retry_queue_short (n : nat) (w : world) :
  retry_queue w = [] ->
  exists r w',
    Loops.agent_b_passes n w = Some (r, w') /\
    (r = Return tt -> waiting_once w') /\
    (forall e, r = Raise e -> exn_kind e = APIError).
Proof.
  intros Hempty.
  destruct (agent_b_passes_run n w) as (r & w' & Hrun & _ & Hinv & Hraise).
  exists r, w'. split; [done|]. split.
  - apply Hinv. by left.
  - apply Hraise. by left.
Qed.

Lemma outreach_loop_keeps_retry_queue_short_witness :
  retry_queue busy_outreach_world = [] /\
  exists r w',
    Loops.agent_b_passes 2 busy_outreach_world = Some (r, w') /\
    (r = Return tt -> waiting_once w').
Proof.
  split; [reflexivity|].
  destruct (outreach_loop_keeps_retry_queue_short 2 busy_outreach_world eq_refl)
    as (r & w' & Hrun & Hinv & _).
  by exists r, w'.
Defined.

Example two_passes_of_a_busy_worker :
  match Loops.agent_b_passes 2 busy_outreach_world with
  | Some (r, w') =>
      r = Return tt /\ retry_queue w' = [(zero_number_lead, 1)] /\
      length (outbox w') = 4 /\
      outreach_queue (task_queue w') = [acme_lead]
  | None => False
  end.
Proof. by vm_compute. Qed.

(** X19. Over any number of passes of the loop of [AgentB], whatever the
    mail server does, the sends made, the attempts the retry queue has left
    and three sends for each lead still waiting on the outreach channel
    never add up to more than at the start: no lead taken from the channel
    costs more than three sends. *)
Theorem outreach_loop_within_budget (n : nat) (w : world) :
  match Loops.agent_b_passes n w with
  | Some (_, w') => send_budget w' <= send_budget w
  | None => False
  end.
Proof.
  destruct (agent_b_passes_run n w) as (r & w' & -> & Hb & _). exact Hb.
Qed.

Section Pipeline.
Import CRMHandler.

(** [AgentA.process_lead] on a lead whose checks raise nothing, with a
    worksheet that accepts every request. *)
Lemma verification_accepted l w status :
  accepting w ->
  computed_status (ext w) (lead_data l) = Return status ->
  exists w',
    AgentA.process_lead l w = (Return tt, w') /\
    accepting w' /\ same_but_row (lead_index l) w w' /\
    outreach_queue (task_queue w') =
      (if String.eqb status "Y"
       then outreach_queue (task_queue w) ++ [l]
       else outreach_queue (task_queue w)) /\
    written (AgentA.verified_updates status (wall_clock (ext w) (clock_reads w)))
            l (headers w) w'.
Proof.
  intros Hok Hs. unfold AgentA.process_lead, try_except.
  assert (exists w', AgentA.process_lead_try l w = (Return tt, w')) as [w' Htry].
  { rewrite process_lead_try_spec.
    destruct (update_lead_accepting (lead_index l)
                [("Processing Status", PStr "Verifying")] w Hok)
      as (w1 & E1 & Hok1 & _).
    rewrite E1. apply update_lead_outcome in E1 as [(Hx&_) _].
    rewrite Hx, Hs.
    destruct (update_lead_accepting (lead_index l)
                (AgentA.verified_updates status
                   (wall_clock (ext w) (clock_reads w1)))
                (set_clock_reads (S (clock_reads w1)) w1) Hok1)
      as (w3 & E3 & _ & _).
    rewrite E3. eauto. }
  rewrite Htry. exists w'. split; [done|].
  pose proof (process_lead_try_row _ _ _ _ Htry) as Hrow.
  apply process_lead_try_outcome in Htry as (Hx & _ & status' & Hs' & Hq & Hw).
  rewrite Hs in Hs'. injection Hs' as <-.
  split; [|done]. intros n. rewrite Hx. apply Hok.
Qed.

End Pipeline.

(** X20. The two agents end to end: with a worksheet that accepts every
    request, a lead at the head of the verification channel whose checks
    give "Y" and whose first send is delivered is, after one pass of
    [AgentA] and one pass of [AgentB], off both channels, sent once, and its
    row reads emailVerified "Y", processingStatus "Completed" and
    responseStatus "Pending Response" in the columns the sheet has. *)
Theorem verified_lead_is_completed
    (l : lead) (waiting : list lead) (w : world) :
  accepting w ->
  task_queue w = MkTaskQueue (l :: waiting) [] ->
  retry_queue w = [] ->
  computed_status (ext w) (lead_data l) = Return "Y" ->
  smtp_delivers (ext w) (length (outbox w)) = true ->
  exists w1 w2,
    Loops.agent_a_pass w = Some (Return tt, w1) /\
    Loops.agent_b_pass w1 = Some (Return tt, w2) /\
    task_queue w2 = MkTaskQueue waiting [] /\
    retry_queue w2 = [] /\
    outbox w2 = outbox w ++ [lead_data l] /\
    written [("Email Verified (Y/N)", PStr "Y");
             ("Processing Status", PStr "Completed");
             ("Response Status", PStr "Pending Response")]
            l (headers w) w2.
Proof.
  intros Hok Hq Hr Hs Hd.
  unfold Loops.agent_a_pass. rewrite get_verification_task_answers, Hq. simpl.
  set (w0 := set_task_queue (MkTaskQueue waiting []) w).
  destruct (verification_accepted l w0 "Y" Hok Hs)
    as (w1 & -> & Hok1 & (Hx1 & Hh1 & Hv1 & Hr1 & Ho1 & _) & Hq1 & Hw1).
  simpl in Hq1, Hh1, Hv1, Hr1, Ho1, Hx1, Hw1.
  exists w1. unfold Loops.agent_b_pass.
  rewrite process_retry_queue_unfold, Hr1, Hr.
  rewrite get_outreach_task_answers, Hq1, Hv1.
  assert (is_Some (lead_data l !! "Email")) as [to Hto].
  { revert Hs. unfold computed_status, CRMHandler.subscript.
    destruct (lead_data l !! "Email"); [eauto|done]. }
  set (w1' := set_task_queue (MkTaskQueue waiting []) w1).
  destruct (outreach_delivered l w1' to Hok1 Hto)
    as (w2 & E2 & Hw2 & Ho2 & Hr2 & _ & Hkept).
  { simpl. by rewrite Hx1, Ho1. }
  pose proof (outreach_process_lead_row l w1') as [(_ & _ & Hq2 & _) _].
  pose proof E2 as E2'.
  unfold AgentB.process_lead, try_except in E2'.
  rewrite E2 in Hq2. simpl in Hq2, Ho2, Hr2, Hw2.
  exists w2. split; [done|]. split; [by rewrite E2|].
  split; [done|]. split; [by rewrite Hr2, Hr1|].
  split; [by rewrite Ho2, Ho1|].
  intros col val i Hin Hi.
  apply elem_of_cons in Hin as [[= -> ->]|Hin].
  - rewrite (Hkept "Email Verified (Y/N)" i).
    + apply (Hw1 "Email Verified (Y/N)"); [by left|done].
    + apply (bool_decide_unpack _). by vm_compute.
    + simpl. by rewrite Hh1.
  - rewrite Hx1, Hh1 in Hw2. apply (Hw2 col); [|done].
    apply elem_of_cons in Hin as [[= -> ->]|Hin]; [by left|].
    apply list_elem_of_singleton in Hin as [= -> ->]. right. by left.
Qed.

Lemma verified_lead_is_completed_witness :
  exists w1 w2,
    Loops.agent_a_pass
      (set_task_queue (MkTaskQueue [acme_lead; zero_number_lead] []) quiet_world)
    = Some (Return tt, w1) /\
    Loops.agent_b_pass w1 = Some (Return tt, w2) /\
    task_queue w2 = MkTaskQueue [zero_number_lead] [] /\
    cell_at w2 0 5 = Some (PStr "Y") /\
    cell_at w2 0 4 = Some (PStr "Completed").
Proof.
  destruct (verified_lead_is_completed acme_lead [zero_number_lead]
              (set_task_queue (MkTaskQueue [acme_lead; zero_number_lead] [])
                 quiet_world))
    as (w1 & w2 & Ha & Hb & Hq & _ & _ & Hw).
  - intros n. reflexivity.
  - reflexivity.
  - reflexivity.
  - by vm_compute.
  - reflexivity.
  - exists w1, w2. split; [exact Ha|]. split; [exact Hb|]. split; [exact Hq|].
    split.
    + apply (Hw "Email Verified (Y/N)"); [by left|reflexivity].
    + apply (Hw "Processing Status"); [right; by left|reflexivity].
Defined.

(** ** AgentA.check_contact_details *)

(** C1 (what the code does). [check_contact_details] asks whether the three
    required fields are truthy, not whether they are filled in.  A lead
    whose address passes the validation, whose industry and company are text
    and not excluded, whose Email and Company are not empty, and whose
    Contact Number is there and reads as the number zero meets every
    condition of the rule, and no exception is raised on it; yet
    [AgentA.process_lead] writes emailVerified ["N"] with processingStatus
    ["Verified"] and the verification date, and puts nothing on the outreach
    channel. *)
Theorem zero_contact_number_is_refused (l : lead) (w : world) :
  accepting w ->
  first_number (lead_data l) = None ->
  passes_verification nonempty (ext w) (lead_data l) ->
  reads_zero (lead_data l !! "Contact Number") ->
  (AgentA.process_lead l w).1 = Return tt /\
  written (AgentA.verified_updates "N" (wall_clock (ext w) (clock_reads w)))
          l (headers w) (AgentA.process_lead l w).2 /\
  outreach_untouched l w.
Proof.
  intros Hok Htext Hpass Hzero.
  assert (exists status,
             computed_status (ext w) (lead_data l) = Return status)
    as [status Hs].
  { destruct Hpass as ((email & He & Hv) & _).
    unfold computed_status, CRMHandler.subscript. rewrite He, Hv.
    unfold AgentA.perform_additional_checks, AgentA.check_industry,
      AgentA.check_company_size, AgentA.check_contact_details,
      CRMHandler.get_lower.
    unfold first_number in Htext.
    destruct (lead_data l !! "Industry") as [[s|z|f]|];
      destruct (lead_data l !! "Company") as [[s'|z'|f']|];
      simpl in *; simplify_eq; eauto. }
  assert (status = "N") as ->.
  { destruct (computed_status_Y_or_N _ _ _ Hs) as [->|Hn]; [|done].
    destruct (computed_status_Y _ _ _ Hs) as [Hy _]. specialize (Hy eq_refl).
    destruct Hy as (_ & _ & _ & _ & _ & Hnum). unfold is_truthy in Hnum.
    destruct Hzero as [Hz|[sign Hz]]; rewrite Hz in Hnum; discriminate Hnum. }
  destruct (verification_accepted l w "N" Hok Hs)
    as (w' & Hp & _ & _ & Ho & Hw).
  unfold outreach_untouched. rewrite Hp. simpl. by split.
Qed.

Lemma zero_contact_number_is_refused_witness :
  cell_at (AgentA.process_lead zero_number_lead quiet_world).2 0 5
  = Some (PStr "N") /\
  cell_at (AgentA.process_lead zero_number_lead quiet_world).2 0 4
  = Some (PStr "Verified") /\
  outreach_queue (task_queue (AgentA.process_lead zero_number_lead quiet_world).2)
  = [].
Proof.
  destruct (zero_contact_number_is_refused zero_number_lead quiet_world)
    as (_ & Hw & Ho).
  - intros n. reflexivity.
  - reflexivity.
  - split; [|split; [|split; [|split; [|split]]]].
    + exists (PStr "ann@acme.org"). split; by vm_compute.
    + apply (bool_decide_unpack _). by vm_compute.
    + apply (bool_decide_unpack _). by vm_compute.
    + exists (PStr "ann@acme.org"). split; [by vm_compute|discriminate].
    + exists (PStr "Acme"). split; [by vm_compute|discriminate].
    + exists (PInt 0). split; [by vm_compute|discriminate].
  - by left.
  - split; [|split; [|exact Ho]].
    + apply (Hw "Email Verified (Y/N)"); [|reflexivity].
      unfold AgentA.verified_updates. set_solver.
    + apply (Hw "Processing Status"); [|reflexivity].
      unfold AgentA.verified_updates. set_solver.
Defined.

(** ** Supervisor.generate_report, further *)

Section ReportMore.

Lemma tallied_under_app s a b :
  tallied_under s (a ++ b) = tallied_under s a + tallied_under s b.
Proof. unfold tallied_under. by rewrite filter_app, length_app. Qed.

Lemma tallied_under_Permutation s a b :
  a ≡ₚ b -> tallied_under s a = tallied_under s b.
Proof. intros Hp. unfold tallied_under. by rewrite Hp. Qed.

Lemma count_if_app {A} (p : A -> bool) (a b : list A) :
  Supervisor.count_if p (a ++ b)
  = Supervisor.count_if p a + Supervisor.count_if p b.
Proof.
  unfold Supervisor.count_if. by rewrite List.filter_app, length_app.
Qed.

Lemma count_if_Permutation {A} (p : A -> bool) (a b : list A) :
  a ≡ₚ b -> Supervisor.count_if p a = Supervisor.count_if p b.
Proof.
  intros Hp. rewrite !(count_if_filter p (fun x => p x = true)) by done.
  by rewrite Hp.
Qed.

Lemma responses_lookup leads s :
  responses (Supervisor.report_of leads) !! s
  = if bool_decide (s ∈ categories) then Some (tallied_under s leads) else None.
Proof.
  simpl. rewrite fold_tally_lookup, initial_responses_lookup.
  by case_bool_decide.
Qed.

End ReportMore.

(** X21. The report does not depend on the order of the rows: two sheets
    with the same records in any order give the same report. *)
Theorem report_ignores_order (leads leads' : list (gmap string value)) :
  leads ≡ₚ leads' ->
  Supervisor.report_of leads = Supervisor.report_of leads'.
Proof.
  intros Hp. unfold Supervisor.report_of. f_equal.
  - by rewrite Hp.
  - by apply count_if_Permutation.
  - apply map_eq. intros s. rewrite !fold_tally_lookup.
    by rewrite (tallied_under_Permutation s _ _ Hp).
Qed.

Lemma report_ignores_order_witness :
  Supervisor.report_of sample_records
  = Supervisor.report_of (reverse sample_records).
Proof.
  apply report_ignores_order. symmetry. apply reverse_Permutation.
Defined.

(** X22. The report of two sheets put one after the other is the sum of
    their reports: the totals, the verified counts and each of the three
    response counters add up. *)
Theorem report_of_app (a b : list (gmap string value)) :
  total_leads (Supervisor.report_of (a ++ b))
  = total_leads (Supervisor.report_of a) + total_leads (Supervisor.report_of b) /\
  verified (Supervisor.report_of (a ++ b))
  = verified (Supervisor.report_of a) + verified (Supervisor.report_of b) /\
  forall s na nb,
    responses (Supervisor.report_of a) !! s = Some na ->
    responses (Supervisor.report_of b) !! s = Some nb ->
    responses (Supervisor.report_of (a ++ b)) !! s = Some (na + nb).
Proof.
  split; [simpl; by rewrite length_app|]. split; [apply count_if_app|].
  intros s na nb. rewrite !responses_lookup.
  case_bool_decide; [|done]. intros [= <-] [= <-].
  by rewrite tallied_under_app.
Qed.

(** ** AgentA.start_processing *)

Section VerificationLoop.




End VerificationLoop.



(** ** Gmail.get_unread_messages and Supervisor.monitor_email_tasks *)

Section GmailFacts.

Lemma execute_served {A} (a : A) b :
  gmail_error (api b) (api_requests b) = None ->
  Gmail.execute a b
  = (inr a, Mailbox (api b) (S (api_requests b)) (marked_read b) (gmail_log b)).
Proof. intros H. unfold Gmail.execute. by rewrite H. Qed.

Lemma execute_refused {A} (a : A) b e :
  gmail_error (api b) (api_requests b) = Some e ->
  Gmail.execute a b
  = (inl e, Mailbox (api b) (S (api_requests b)) (marked_read b) (gmail_log b)).
Proof. intros H. unfold Gmail.execute. by rewrite H. Qed.

Lemma requests_served_shift b b' k d :
  api b' = api b -> api_requests b' = api_requests b + d ->
  requests_served b (d + k) -> requests_served b' k.
Proof.
  intros Ha Hn H i Hi. rewrite Ha, Hn, <- Nat.add_assoc. apply H. lia.
Qed.

(** The loop when every request goes through. *)
Lemma fetch_served messages full_messages b :
  requests_served b (2 * length messages) ->
  Gmail.fetch messages full_messages b
  = (inr (full_messages ++ (gmail_get (api b) <$> messages)),
     Mailbox (api b) (api_requests b + 2 * length messages)
             (marked_read b ++ messages) (gmail_log b)).
Proof.
  revert full_messages b.
  induction messages as [|id rest IH]; intros acc b Hs.
  { simpl. rewrite !app_nil_r, Nat.add_0_r. by destruct b. }
  cbn [Gmail.fetch].
  rewrite execute_served by (rewrite <- (Nat.add_0_r (api_requests b)); apply Hs; simpl; lia).
  rewrite execute_served
    by (simpl; rewrite <- Nat.add_1_r; apply Hs; simpl; lia).
  rewrite IH.
  - simpl. f_equal; [by rewrite <- app_assoc|].
    f_equal; [lia|by rewrite <- app_assoc].
  - eapply (requests_served_shift b _ _ 2); [done|simpl; lia|].
    replace (2 + 2 * length rest) with (2 * length (id :: rest)) by (simpl; lia).
    exact Hs.
Qed.

(** The loop when the request numbered [j] from the next is the first that
    fails. *)
Lemma fetch_refused messages full_messages b j e :
  j < 2 * length messages ->
  requests_served b j ->
  gmail_error (api b) (api_requests b + j) = Some e ->
  Gmail.fetch messages full_messages b
  = (inl e,
     Mailbox (api b) (api_requests b + j + 1)
             (marked_read b ++ take (j / 2) messages) (gmail_log b)).
Proof.
  revert full_messages b j.
  induction messages as [|id rest IH]; intros acc b j Hj Hs He.
  { simpl in Hj. lia. }
  cbn [Gmail.fetch].
  destruct j as [|[|j]].
  - rewrite Nat.add_0_r in He. rewrite (execute_refused _ _ e He).
    simpl. rewrite app_nil_r. do 2 f_equal. lia.
  - rewrite execute_served
      by (rewrite <- (Nat.add_0_r (api_requests b)); apply Hs; lia).
    rewrite (execute_refused _ _ e) by (simpl; by rewrite <- Nat.add_1_r).
    simpl. rewrite app_nil_r. do 2 f_equal. lia.
  - rewrite execute_served
      by (rewrite <- (Nat.add_0_r (api_requests b)); apply Hs; lia).
    rewrite execute_served
      by (simpl; rewrite <- Nat.add_1_r; apply Hs; lia).
    rewrite (IH _ _ j).
    + assert (S (S j) / 2 = S (j / 2)) as ->.
      { replace (S (S j)) with (1 * 2 + j) by lia.
        rewrite Nat.div_add_l by lia. lia. }
      cbn [take api api_requests marked_read gmail_log Gmail.mark_read].
      rewrite <- app_assoc. do 2 f_equal. lia.
    + simpl in Hj. lia.
    + eapply (requests_served_shift b _ _ 2); [done|simpl; lia|].
      intros i Hi. apply Hs. lia.
    + simpl. rewrite <- He. f_equal. lia.
Qed.

Lemma fold_process_email_task messages b :
  fold_left (fun b' msg => process_email_task msg b') messages b = b.
Proof. by induction messages. Qed.

Lemma get_unread_messages_served query b :
  let messages := gmail_list (api b) (api_requests b) (Gmail.full_query query) in
  requests_served b (1 + 2 * length messages) ->
  Gmail.get_unread_messages query b
  = (gmail_get (api b) <$> messages,
     Mailbox (api b) (api_requests b + 1 + 2 * length messages)
             (marked_read b ++ messages) (gmail_log b)).
Proof.
  intros messages Hs. unfold Gmail.get_unread_messages. fold messages.
  rewrite execute_served
    by (rewrite <- (Nat.add_0_r (api_requests b)); apply Hs; lia).
  rewrite fetch_served.
  - simpl. do 2 f_equal. lia.
  - eapply (requests_served_shift b _ _ 1); [done|simpl; lia|exact Hs].
Qed.

End GmailFacts.

(** The query sent is ["is:unread"] alone for the default query, and loses
    the white space a query ends with, also white space outside ASCII. *)
Example full_query_samples :
  Gmail.full_query "" = "is:unread" /\
  Gmail.full_query "from:ann  " = "is:unread from:ann" /\
  Gmail.full_query ("from:ann" +:+ nbsp) = "is:unread from:ann" /\
  Gmail.full_query ("from:ann " +:+ em_space +:+ nbsp) = "is:unread from:ann" /\
  Gmail.full_query (nbsp +:+ "from:ann")
  = "is:unread " +:+ nbsp +:+ "from:ann".
Proof. by vm_compute. Qed.

(** X24. When the service answers every request of the call,
    [Gmail.get_unread_messages] makes one request for the list and two for
    each message listed, returns the listed messages in the order of the
    list, has marked each of them read, and logs nothing. *)
Theorem unread_messages_fetched_and_marked (query : string) (b : mailbox) :
  let messages := gmail_list (api b) (api_requests b) (Gmail.full_query query) in
  requests_served b (1 + 2 * length messages) ->
  Gmail.get_unread_messages query b
  = (gmail_get (api b) <$> messages,
     Mailbox (api b) (api_requests b + 1 + 2 * length messages)
             (marked_read b ++ messages) (gmail_log b)).
Proof. apply get_unread_messages_served. Qed.

Lemma unread_messages_fetched_and_marked_witness :
  Gmail.get_unread_messages ("subject:New Campaign Task" +:+ nbsp)
    (sample_mailbox None)
  = (["task m1"; "task m2"; "task m3"],
     Mailbox (sample_api None) 7 ["m1"; "m2"; "m3"] []).
Proof.
  apply (unread_messages_fetched_and_marked
           ("subject:New Campaign Task" +:+ nbsp) (sample_mailbox None)).
  intros i _. reflexivity.
Defined.

(** X25. [Gmail.get_unread_messages] never raises, and a failure loses the
    messages handled before it: when the request numbered [j] of the call is
    the first the service refuses, the call returns the empty list and logs
    the error once, yet the first [(j - 1) / 2] messages of the list have
    been marked read (none when the list request itself fails). *)
Theorem failed_fetch_returns_nothing (query : string) (b : mailbox)
    (j : nat) (e : string) :
  let messages := gmail_list (api b) (api_requests b) (Gmail.full_query query) in
  j < 1 + 2 * length messages ->
  requests_served b j ->
  gmail_error (api b) (api_requests b + j) = Some e ->
  Gmail.get_unread_messages query b
  = ([],
     Mailbox (api b) (api_requests b + j + 1)
             (marked_read b ++ take ((j - 1) / 2) messages)
             (gmail_log b ++ ["Error fetching Gmail messages: " +:+ e])).
Proof.
  intros messages Hj Hs He. unfold Gmail.get_unread_messages. fold messages.
  destruct j as [|j].
  - rewrite Nat.add_0_r in He. rewrite (execute_refused _ _ e He).
    unfold Gmail.log_error. simpl. rewrite app_nil_r. do 2 f_equal. lia.
  - rewrite execute_served
      by (rewrite <- (Nat.add_0_r (api_requests b)); apply Hs; lia).
    rewrite (fetch_refused messages [] _ j e).
    + unfold Gmail.log_error. simpl. rewrite Nat.sub_0_r. do 2 f_equal. lia.
    + lia.
    + eapply (requests_served_shift b _ _ 1); [done|simpl; lia|exact Hs].
    + simpl. rewrite <- He. f_equal. lia.
Qed.

Lemma failed_fetch_returns_nothing_witness :
  Gmail.get_unread_messages ("subject:New Campaign Task " +:+ em_space)
    (sample_mailbox (Some 5))
  = ([],
     Mailbox (sample_api (Some 5)) 6 ["m1"; "m2"]
             ["Error fetching Gmail messages: HttpError 503"]).
Proof.
  apply (failed_fetch_returns_nothing
           ("subject:New Campaign Task " +:+ em_space)
           (sample_mailbox (Some 5)) 5 "HttpError 503").
  - vm_compute. lia.
  - intros i Hi. do 5 (destruct i as [|i]; [reflexivity|]). lia.
  - reflexivity.
Defined.

(** X26. [Supervisor.monitor_email_tasks] asks for the unread mails whose
    subject is "New Campaign Task" and does nothing with them: when the
    service answers every request, all it leaves behind is that the listed
    mails are marked read. *)
Theorem monitor_email_tasks_only_marks_read (b : mailbox) :
  let messages :=
    gmail_list (api b) (api_requests b) "is:unread subject:New Campaign Task" in
  requests_served b (1 + 2 * length messages) ->
  monitor_email_tasks b
  = Mailbox (api b) (api_requests b + 1 + 2 * length messages)
            (marked_read b ++ messages) (gmail_log b).
Proof.
  intros messages Hs. unfold monitor_email_tasks.
  rewrite (get_unread_messages_served "subject:New Campaign Task" b Hs).
  apply fold_process_email_task.
Qed.

Lemma monitor_email_tasks_only_marks_read_witness :
  monitor_email_tasks (sample_mailbox None)
  = Mailbox (sample_api None) 7 ["m1"; "m2"; "m3"] [].
Proof.
  apply (monitor_email_tasks_only_marks_read (sample_mailbox None)).
  intros i _. reflexivity.
Defined.

(** ** Supervisor.send_report *)

Section SendReport.

Lemma append_assoc (a b c : string) : (a +:+ b) +:+ c = a +:+ (b +:+ c).
Proof.
  induction a as [|x a IH]; [reflexivity|]. by rewrite !append_cons, IH.
Qed.

(** A plain byte is no white space, and no white-space character of two or
    three bytes begins or ends with it. *)
Lemma plain_spec c :
  plain c = true -> py_whitespace c = false /\ nat_of_ascii c < 128.
Proof.
  unfold plain. intros [Hw Hn]%andb_prop. split.
  - by apply negb_true_iff.
  - by apply Nat.ltb_lt.
Qed.

Lemma whitespace2_last a c : nat_of_ascii c < 128 -> py_whitespace2 a c = false.
Proof.
  intros Hc. unfold py_whitespace2.
  assert (Nat.eqb (nat_of_ascii c) 133 = false) as -> by (apply Nat.eqb_neq; lia).
  assert (Nat.eqb (nat_of_ascii c) 160 = false) as -> by (apply Nat.eqb_neq; lia).
  by rewrite andb_false_r.
Qed.

Lemma whitespace2_first a b : nat_of_ascii a < 128 -> py_whitespace2 a b = false.
Proof.
  intros Ha. unfold py_whitespace2.
  by assert (Nat.eqb (nat_of_ascii a) 194 = false) as -> by (apply Nat.eqb_neq; lia).
Qed.

Lemma whitespace3_last a b c :
  nat_of_ascii c < 128 -> py_whitespace3 a b c = false.
Proof.
  intros Hc. unfold py_whitespace3. cbv zeta.
  assert (Nat.eqb (nat_of_ascii c) 128 = false) as -> by (apply Nat.eqb_neq; lia).
  assert (Nat.eqb (nat_of_ascii c) 168 = false) as -> by (apply Nat.eqb_neq; lia).
  assert (Nat.eqb (nat_of_ascii c) 169 = false) as -> by (apply Nat.eqb_neq; lia).
  assert (Nat.eqb (nat_of_ascii c) 175 = false) as -> by (apply Nat.eqb_neq; lia).
  assert (Nat.eqb (nat_of_ascii c) 159 = false) as -> by (apply Nat.eqb_neq; lia).
  assert (Nat.leb 128 (nat_of_ascii c) = false) as -> by (apply Nat.leb_gt; lia).
  btauto.
Qed.

Lemma whitespace3_first a b c :
  nat_of_ascii a < 128 -> py_whitespace3 a b c = false.
Proof.
  intros Ha. unfold py_whitespace3. cbv zeta.
  assert (Nat.eqb (nat_of_ascii a) 225 = false) as -> by (apply Nat.eqb_neq; lia).
  assert (Nat.eqb (nat_of_ascii a) 226 = false) as -> by (apply Nat.eqb_neq; lia).
  by assert (Nat.eqb (nat_of_ascii a) 227 = false) as -> by (apply Nat.eqb_neq; lia).
Qed.

Lemma lstrip_blank_app p s :
  all_chars py_whitespace p = true -> lstrip (p +:+ s) = lstrip s.
Proof.
  induction p as [|c p IH]; [reflexivity|]. simpl all_chars.
  intros [Hc Hp]%andb_prop. rewrite append_cons. cbn [lstrip].
  rewrite Hc. by apply IH.
Qed.

Lemma lstrip_keep c s :
  plain c = true -> lstrip (String c s) = String c s.
Proof.
  intros [Hw Hc]%plain_spec. cbn [lstrip]. rewrite Hw.
  destruct s as [|b [|d r]]; [done| |];
    rewrite (whitespace2_first c b Hc); [done|].
  by rewrite (whitespace3_first c b d Hc).
Qed.

Lemma rstrip_blank ws :
  all_chars py_whitespace ws = true -> rstrip ws = "".
Proof.
  induction ws as [|c ws IH]; [reflexivity|]. simpl.
  intros [Hc Hp]%andb_prop. by rewrite IH, Hc.
Qed.

(** A text that ends with a plain byte. *)
Lemma ends_plain_app a b :
  (exists t c, b = t +:+ String c "" /\ plain c = true) ->
  exists t c, a +:+ b = t +:+ String c "" /\ plain c = true.
Proof.
  intros (t & c & -> & Hc). exists (a +:+ t), c.
  by rewrite append_assoc.
Qed.

(** White space is only taken off behind a text that ends with a plain
    byte, whatever stands in front of it. *)
Lemma rstrip_app_keep a b b' :
  rstrip b = b' ->
  (exists t c, b' = t +:+ String c "" /\ plain c = true) ->
  rstrip (a +:+ b) = a +:+ b'.
Proof.
  intros Hb (t & c & Hb' & [Hw Hc]%plain_spec).
  induction a as [|x a IH]; [exact Hb|].
  rewrite !append_cons. cbn [rstrip]. rewrite IH, Hb', <- append_assoc.
  destruct (a +:+ t) as [|y [|z [|u rest]]]; rewrite ?append_cons;
    change ("" +:+ String c "") with (String c ""); cbv beta iota.
  - by rewrite (whitespace2_last x c Hc).
  - by rewrite (whitespace3_last x y c Hc).
  - done.
  - done.
Qed.

Lemma rstrip_plain_blank c ws :
  plain c = true -> all_chars py_whitespace ws = true ->
  rstrip (String c ws) = String c "".
Proof.
  intros [Hw _]%plain_spec Hws. cbn [rstrip].
  by rewrite (rstrip_blank ws Hws), Hw.
Qed.

Lemma pretty_N_go_suffix x s : exists t, pretty_N_go x s = t +:+ s.
Proof.
  revert s. induction (N.lt_wf_0 x) as [x _ IH]; intros s.
  destruct (decide (x = 0)%N) as [->|Hx].
  { by exists "". }
  rewrite pretty_N_go_step by lia.
  destruct (IH (x `div` 10)%N) with (s := String (pretty_N_char (x `mod` 10)) s)
    as [t Ht].
  { apply N.div_lt; lia. }
  exists (t +:+ String (pretty_N_char (x `mod` 10)) "").
  by rewrite Ht, append_assoc_char.
Qed.

Lemma pretty_N_char_plain x : plain (pretty_N_char x) = true.
Proof. unfold pretty_N_char. by repeat case_match. Qed.

(** A number in decimal ends with a digit. *)
Lemma pretty_nat_ends (n : nat) :
  exists t c, pretty n = t +:+ String c "" /\ plain c = true.
Proof.
  unfold pretty, pretty_nat, pretty, pretty_N.
  destruct (decide _) as [_|Hn].
  { by exists "", "0"%char. }
  rewrite pretty_N_go_step by lia.
  destruct (pretty_N_go_suffix (N.of_nat n `div` 10)
              (String (pretty_N_char (N.of_nat n `mod` 10)) "")) as [t Ht].
  exists t, (pretty_N_char (N.of_nat n `mod` 10)).
  split; [exact Ht|apply pretty_N_char_plain].
Qed.

Lemma strip_report_body r :
  strip (report_body r)
  = report_lines (total_leads r) (verified r)
      (responses r !!! "Interested") (responses r !!! "Not Interested")
      (responses r !!! "No Response").
Proof.
  unfold strip, report_body, report_lines.
  rewrite (lstrip_blank_app line_feed) by reflexivity.
  rewrite (lstrip_blank_app indent) by reflexivity.
  rewrite append_cons, lstrip_keep by reflexivity.
  rewrite <- append_cons.
  pose proof (pretty_nat_ends (responses r !!! "No Response")) as Hend.
  assert (rstrip (pretty (responses r !!! "No Response") +:+ line_feed +:+ indent)
          = pretty (responses r !!! "No Response")) as Hlast.
  { destruct Hend as (t & c & Ht & Hc). rewrite Ht, append_assoc_char.
    apply rstrip_app_keep.
    - by apply rstrip_plain_blank.
    - by exists "", c. }
  repeat first
    [ exact Hlast
    | apply rstrip_app_keep; [|repeat apply ends_plain_app; exact Hend] ].
Qed.

Lemma tallied_total records s :
  s ∈ categories ->
  responses (Supervisor.report_of records) !!! s = tallied_under s records.
Proof.
  intros Hs. rewrite lookup_total_alt, responses_lookup.
  by rewrite bool_decide_eq_true_2.
Qed.

End SendReport.

(** X27. [Supervisor.send_report] lets through what the worksheet raises and
    nothing else.  The report is generated before the [try]: when the
    worksheet refuses the request for the records the exception leaves the
    call and no mail is attempted.  Otherwise the call returns whatever the
    mail server does: one mail is handed to a session, from the configured
    address to the recipient, its text being the title and the five counts
    of the records in decimal with no blank before or after; a session that
    fails is logged and swallowed. *)
Theorem send_report_raises_for_the_sheet_only
    (recipient : string) (cfg : smtp_config) (o : office) :
  let w := crm o in
  let w' := set_requests (S (requests w)) w in
  match sheet_api_error (ext w) (requests w) with
  | Some msg =>
      send_report recipient cfg o
      = (Raise (Exn APIError msg),
         Office w' (report_delivers o) (report_mails o) (report_failures o))
  | None =>
      let records := sheet_records (ext w) (requests w) in
      let text :=
        report_lines (length records)
          (length (filter (fun l => l !! "Email Verified (Y/N)" = Some (PStr "Y"))
                          records))
          (tallied_under "Interested" records)
          (tallied_under "Not Interested" records)
          (tallied_under "No Response" records) in
      send_report recipient cfg o
      = (Return tt,
         Office w' (report_delivers o)
           (report_mails o
            ++ [ReportMail "Daily Campaign Report" (smtp_email cfg) recipient text])
           (if report_delivers o (length (report_mails o))
            then report_failures o else S (report_failures o)))
  end.
Proof.
  intros w w'. unfold send_report, Supervisor.generate_report,
    CRMHandler.get_leads, CRMHandler.get_all_records, CRMHandler.sheet_request,
    bind, gets, ret.
  fold w. destruct (sheet_api_error (ext w) (requests w)) as [msg|]; [done|].
  cbv zeta. simpl. rewrite strip_report_body.
  rewrite !tallied_total by (unfold categories; set_solver).
  simpl.
  rewrite (count_if_filter Supervisor.is_verified
             (fun l => l !! "Email Verified (Y/N)" = Some (PStr "Y")));
    [done|].
  intros l. unfold Supervisor.is_verified. apply bool_decide_eq_true.
Qed.
